(** * Serial framing protocol of the pad firmware

    A shallow embedding of [firmware/src/comms/serial_comms.{h,cpp}] and of
    the protocol constants of [firmware/src/config.h]: the byte-stream
    decoder [SerialComms::poll], the dispatcher [SerialComms::processMessage]
    and the sending side [SerialComms::sendFrame].

    Conventions.
    - [uint8_t] values are [Byte.byte]; [b2z] reads one as a number and [z2b]
      is the C conversion to [uint8_t] (reduction modulo 256).
    - [uint16_t] and [unsigned long] values are [Z] with the wrap-around
      written out ([u16], [u32]).
    - Arrays are lists; an access outside the array has no defined behaviour
      in C++ and is modelled by [None].
    - The callbacks are external code: a slot is a [bool] (registered or
      [nullptr]) and every invocation is recorded as an [Event]. *)

From Stdlib Require Import ZArith Lia Bool List.
From Stdlib.Strings Require Import Byte.
From stdpp Require Import base option list.
Import ListNotations.
Local Open Scope Z_scope.

(** ** Machine integers *)

Definition b2z (b : byte) : Z := Z.of_N (Byte.to_N b).

Definition z2b (z : Z) : byte :=
  match Byte.of_N (Z.to_N (z mod 256)) with
  | Some b => b
  | None => x00
  end.

Definition u16 (z : Z) : Z := z mod 65536.
Definition u32 (z : Z) : Z := z mod 4294967296.

(** ** config.h: communication protocol *)

Definition MSG_DISPLAY_TEXT : byte := x01.
Definition MSG_BUTTON : byte := x02.
Definition MSG_SET_LEDS : byte := x03.
Definition MSG_STATUS : byte := x04.
Definition MSG_CLEAR : byte := x05.
Definition MSG_SET_LABELS : byte := x06.
Definition MSG_HEARTBEAT : byte := x07.

Definition FRAME_START_BYTE : byte := xaa.
Definition MAX_MSG_LEN : Z := 512.

(** The seven message types of config.h. *)
Definition defined_types : list byte :=
  [MSG_DISPLAY_TEXT; MSG_BUTTON; MSG_SET_LEDS; MSG_STATUS; MSG_CLEAR;
   MSG_SET_LABELS; MSG_HEARTBEAT].

(** ** Memory accesses *)

(** [mem[i]] *)
Definition load (mem : list byte) (i : Z) : option byte :=
  if 0 <=? i then mem !! Z.to_nat i else None.

(** [mem[i] = b] *)
Definition store (mem : list byte) (i : Z) (b : byte) : option (list byte) :=
  if (0 <=? i) && (i <? Z.of_nat (length mem))
  then Some (<[Z.to_nat i := b]> mem)
  else None.

(** The [len] bytes at [mem + off]. *)
Definition region (mem : list byte) (off len : Z) : option (list byte) :=
  if (0 <=? off) && (0 <=? len) && (off + len <=? Z.of_nat (length mem))
  then Some (take (Z.to_nat len) (drop (Z.to_nat off) mem))
  else None.

(** [memcpy(dst, src, n)], the result is the new content of [dst]. *)
Definition memcpy (dst src : list byte) (n : Z) : option (list byte) :=
  if (0 <=? n) && (n <=? Z.of_nat (length dst)) && (n <=? Z.of_nat (length src))
  then Some (take (Z.to_nat n) src ++ drop (Z.to_nat n) dst)
  else None.

(** The C string that starts at [mem]: the bytes before the first NUL. *)
Fixpoint cstr (mem : list byte) : list byte :=
  match mem with
  | [] => []
  | b :: rest => if Byte.eqb b x00 then [] else b :: cstr rest
  end.

(** ** serial_comms.h *)

Inductive ParseState : Type :=
| WAIT_START
| READ_LEN_HI
| READ_LEN_LO
| READ_BODY
| READ_CHECKSUM.

Definition ParseState_eqb (a b : ParseState) : bool :=
  match a, b with
  | WAIT_START, WAIT_START
  | READ_LEN_HI, READ_LEN_HI
  | READ_LEN_LO, READ_LEN_LO
  | READ_BODY, READ_BODY
  | READ_CHECKSUM, READ_CHECKSUM => true
  | _, _ => false
  end.

Definition FRAME_TIMEOUT_MS : Z := 500.

(** The fields of [class SerialComms], and [labelBufs], the function-static
    scratch storage of [processMessage]. *)
Record SerialComms : Type := mkSerialComms {
  _state : ParseState;
  _buffer : list byte;            (* uint8_t[MAX_MSG_LEN] *)
  _bodyLen : Z;                   (* uint16_t *)
  _bodyIdx : Z;                   (* uint16_t *)
  _lastByteTime : Z;              (* unsigned long *)
  _bridgeConnected : bool;
  _onDisplayText : bool;
  _onStatusText : bool;
  _onSetLeds : bool;
  _onClearDisplay : bool;
  _onSetLabels : bool;
  labelBufs : list (list byte)    (* static char[4][32] *)
}.

Definition set_state (s : SerialComms) (v : ParseState) : SerialComms :=
  mkSerialComms v (_buffer s) (_bodyLen s) (_bodyIdx s) (_lastByteTime s)
    (_bridgeConnected s) (_onDisplayText s) (_onStatusText s) (_onSetLeds s)
    (_onClearDisplay s) (_onSetLabels s) (labelBufs s).

Definition set_buffer (s : SerialComms) (v : list byte) : SerialComms :=
  mkSerialComms (_state s) v (_bodyLen s) (_bodyIdx s) (_lastByteTime s)
    (_bridgeConnected s) (_onDisplayText s) (_onStatusText s) (_onSetLeds s)
    (_onClearDisplay s) (_onSetLabels s) (labelBufs s).

Definition set_bodyLen (s : SerialComms) (v : Z) : SerialComms :=
  mkSerialComms (_state s) (_buffer s) v (_bodyIdx s) (_lastByteTime s)
    (_bridgeConnected s) (_onDisplayText s) (_onStatusText s) (_onSetLeds s)
    (_onClearDisplay s) (_onSetLabels s) (labelBufs s).

Definition set_bodyIdx (s : SerialComms) (v : Z) : SerialComms :=
  mkSerialComms (_state s) (_buffer s) (_bodyLen s) v (_lastByteTime s)
    (_bridgeConnected s) (_onDisplayText s) (_onStatusText s) (_onSetLeds s)
    (_onClearDisplay s) (_onSetLabels s) (labelBufs s).

Definition set_lastByteTime (s : SerialComms) (v : Z) : SerialComms :=
  mkSerialComms (_state s) (_buffer s) (_bodyLen s) (_bodyIdx s) v
    (_bridgeConnected s) (_onDisplayText s) (_onStatusText s) (_onSetLeds s)
    (_onClearDisplay s) (_onSetLabels s) (labelBufs s).

Definition set_bridgeConnected (s : SerialComms) (v : bool) : SerialComms :=
  mkSerialComms (_state s) (_buffer s) (_bodyLen s) (_bodyIdx s)
    (_lastByteTime s) v (_onDisplayText s) (_onStatusText s) (_onSetLeds s)
    (_onClearDisplay s) (_onSetLabels s) (labelBufs s).

Definition set_labelBufs (s : SerialComms) (v : list (list byte)) : SerialComms :=
  mkSerialComms (_state s) (_buffer s) (_bodyLen s) (_bodyIdx s)
    (_lastByteTime s) (_bridgeConnected s) (_onDisplayText s) (_onStatusText s)
    (_onSetLeds s) (_onClearDisplay s) (_onSetLabels s) v.

(** The object as main.cpp creates it: static storage is zeroed, then the
    default member initialisers run. *)
Definition initial : SerialComms :=
  mkSerialComms WAIT_START (replicate 512 x00) 0 0 0 false
    false false false false false (replicate 4 (replicate 32 x00)).

(** [onDisplayText(cb)] ... [onSetButtonLabels(cb)] with a non-null [cb]. *)
Definition onDisplayText (s : SerialComms) : SerialComms :=
  mkSerialComms (_state s) (_buffer s) (_bodyLen s) (_bodyIdx s)
    (_lastByteTime s) (_bridgeConnected s) true (_onStatusText s)
    (_onSetLeds s) (_onClearDisplay s) (_onSetLabels s) (labelBufs s).

Definition onStatusText (s : SerialComms) : SerialComms :=
  mkSerialComms (_state s) (_buffer s) (_bodyLen s) (_bodyIdx s)
    (_lastByteTime s) (_bridgeConnected s) (_onDisplayText s) true
    (_onSetLeds s) (_onClearDisplay s) (_onSetLabels s) (labelBufs s).

Definition onSetLeds (s : SerialComms) : SerialComms :=
  mkSerialComms (_state s) (_buffer s) (_bodyLen s) (_bodyIdx s)
    (_lastByteTime s) (_bridgeConnected s) (_onDisplayText s) (_onStatusText s)
    true (_onClearDisplay s) (_onSetLabels s) (labelBufs s).

Definition onClearDisplay (s : SerialComms) : SerialComms :=
  mkSerialComms (_state s) (_buffer s) (_bodyLen s) (_bodyIdx s)
    (_lastByteTime s) (_bridgeConnected s) (_onDisplayText s) (_onStatusText s)
    (_onSetLeds s) true (_onSetLabels s) (labelBufs s).

Definition onSetButtonLabels (s : SerialComms) : SerialComms :=
  mkSerialComms (_state s) (_buffer s) (_bodyLen s) (_bodyIdx s)
    (_lastByteTime s) (_bridgeConnected s) (_onDisplayText s) (_onStatusText s)
    (_onSetLeds s) (_onClearDisplay s) true (labelBufs s).

(** [SerialComms::begin] *)
Definition begin (s : SerialComms) : SerialComms := set_state s WAIT_START.

(** ** What the surrounding program observes *)

Inductive Event : Type :=
| ProcessMessage (msgType : byte) (payload : list byte)
    (* processMessage was entered with this type and these [len] bytes *)
| DisplayTextCb (text : list byte)      (* _onDisplayText(payload, len) *)
| StatusTextCb (text : list byte)       (* _onStatusText(payload, len) *)
| SetLedsCb (data : list byte)          (* _onSetLeds(payload, len) *)
| ClearDisplayCb                        (* _onClearDisplay() *)
| SetLabelsCb (labels : list (list byte)).
    (* _onSetLabels(labels): the four C strings the pointers lead to *)

Definition is_dispatch (e : Event) : bool :=
  match e with ProcessMessage _ _ => true | _ => false end.

(** ** processMessage, the MSG_SET_LABELS scan *)

(** An entry of [const char* labels[4]]: the literal [""] or [labelBufs[i]]. *)
Inductive LabelPtr : Type :=
| EmptyLiteral
| LabelBuf (i : nat).

Record LabelScan : Type := mkLabelScan {
  labels : list LabelPtr;
  bufs : list (list byte);
  labelIdx : Z;
  pos : Z
}.

(** One turn of [while (pos < len && labelIdx < 4)]; [inl] is the state the
    loop is left with, [inr] the state after a complete turn. *)
Definition labelTurn (payload : list byte) (len : Z) (st : LabelScan)
  : option (LabelScan + LabelScan) :=
  if negb ((pos st <? len) && (labelIdx st <? 4)) then Some (inl st) else
  b ← load payload (pos st);
  let labelLen := b2z b in
  let pos1 := u16 (pos st + 1) in
  if pos1 + labelLen >? len then
    Some (inl (mkLabelScan (labels st) (bufs st) (labelIdx st) pos1))
  else
    let copyLen := if labelLen <? 31 then labelLen else 31 in
    let i := Z.to_nat (labelIdx st) in
    dst ← bufs st !! i;
    dst1 ← memcpy dst (drop (Z.to_nat pos1) payload) copyLen;
    dst2 ← store dst1 copyLen x00;
    Some (inr (mkLabelScan (<[i := LabelBuf i]> (labels st))
                 (<[i := dst2]> (bufs st))
                 (labelIdx st + 1)
                 (u16 (pos1 + labelLen)))).

(** The loop; every complete turn increments [labelIdx], so four turns and
    the closing test are all it can make from [labelIdx = 0]. *)
Fixpoint labelLoop (fuel : nat) (payload : list byte) (len : Z)
  (st : LabelScan) : option LabelScan :=
  match fuel with
  | O => None
  | S fuel' =>
      r ← labelTurn payload len st;
      match r with
      | inl st' => Some st'
      | inr st' => labelLoop fuel' payload len st'
      end
  end.

(** The C string a label pointer leads to. *)
Definition deref (bufs : list (list byte)) (p : LabelPtr) : option (list byte) :=
  match p with
  | EmptyLiteral => Some []
  | LabelBuf i => cstr <$> bufs !! i
  end.

(** ** SerialComms::processMessage

    [payload] is the memory [payload] points into, [len] the length given;
    [data] is the [len] bytes a handler is told to read, which have to lie
    in that memory. The first event records the call itself. *)
Definition processMessage (s : SerialComms) (msgType : byte)
  (payload : list byte) (len : Z) : option (SerialComms * list Event) :=
  data ← region payload 0 len;
  let s := set_bridgeConnected s true in
  let entry := ProcessMessage msgType data in
  if Byte.eqb msgType MSG_DISPLAY_TEXT then
    if _onDisplayText s && (len >? 0)
    then Some (s, [entry; DisplayTextCb data]) else Some (s, [entry])
  else if Byte.eqb msgType MSG_STATUS then
    if _onStatusText s && (len >? 0)
    then Some (s, [entry; StatusTextCb data]) else Some (s, [entry])
  else if Byte.eqb msgType MSG_SET_LEDS then
    if _onSetLeds s && (len >? 0)
    then Some (s, [entry; SetLedsCb data]) else Some (s, [entry])
  else if Byte.eqb msgType MSG_CLEAR then
    if _onClearDisplay s
    then Some (s, [entry; ClearDisplayCb]) else Some (s, [entry])
  else if Byte.eqb msgType MSG_SET_LABELS then
    if _onSetLabels s && (len >? 0) then
      st ← labelLoop 5 payload len
             (mkLabelScan (replicate 4 EmptyLiteral) (labelBufs s) 0 0);
      strs ← mapM (deref (bufs st)) (labels st);
      Some (set_labelBufs s (bufs st), [entry; SetLabelsCb strs])
    else Some (s, [entry])
  else Some (s, [entry]).

(** ** SerialComms::poll *)

(** [millis() - _lastByteTime]: the milliseconds between two readings of
    the clock, as the subtraction of [unsigned long] gives them. *)
Definition elapsed (now last : Z) : Z := u32 (now - last).

(** The timeout test that opens [poll]; [now] is what [millis()] returns
    there. *)
Definition after_timeout (s : SerialComms) (now : Z) : SerialComms :=
  if negb (ParseState_eqb (_state s) WAIT_START)
     && (elapsed now (_lastByteTime s) >? FRAME_TIMEOUT_MS)
  then set_state s WAIT_START
  else s.

Section Decoder.

(** Modelled from the spec: [protocol::checksum] of protocol.h, which is
    not among the sources; "an 8-bit function over the body bytes (type +
    payload), identical on encode and decode paths". Its algorithm is left
    open, so it is a parameter; [checksum body] stands for the call
    [protocol::checksum(ptr, n)] on the [n] bytes [body] at [ptr]. *)
Variable checksum : list byte -> byte.

(** One turn of [while (Serial.available())]: [byte] is what
    [Serial.read()] returned and [t] what [millis()] returned after it. *)
Definition step (s : SerialComms) (t : Z) (byte : byte)
  : option (SerialComms * list Event) :=
  let s := set_lastByteTime s t in
  match _state s with
  | WAIT_START =>
      if Byte.eqb byte FRAME_START_BYTE
      then Some (set_state s READ_LEN_HI, [])
      else Some (s, [])
  | READ_LEN_HI =>
      let s := set_bodyLen s (u16 (Z.shiftl (b2z byte) 8)) in
      Some (set_state s READ_LEN_LO, [])
  | READ_LEN_LO =>
      let s := set_bodyLen s (u16 (Z.lor (_bodyLen s) (b2z byte))) in
      if (_bodyLen s =? 0) || (_bodyLen s >? MAX_MSG_LEN)
      then Some (set_state s WAIT_START, [])
      else Some (set_state (set_bodyIdx s 0) READ_BODY, [])
  | READ_BODY =>
      buf ← store (_buffer s) (_bodyIdx s) byte;
      let s := set_bodyIdx (set_buffer s buf) (u16 (_bodyIdx s + 1)) in
      if _bodyIdx s >=? _bodyLen s
      then Some (set_state s READ_CHECKSUM, [])
      else Some (s, [])
  | READ_CHECKSUM =>
      body ← region (_buffer s) 0 (_bodyLen s);
      let expected := checksum body in
      if Byte.eqb byte expected then
        msgType ← load (_buffer s) 0;
        '(s', evs) ← processMessage s msgType (drop 1 (_buffer s))
                       (u16 (_bodyLen s - 1));
        Some (set_state s' WAIT_START, evs)
      else Some (set_state s WAIT_START, [])
  end.

(** The loop of [poll] over the bytes it reads, each with the time at
    which it was read. *)
Fixpoint drain (s : SerialComms) (avail : list (Z * byte))
  : option (SerialComms * list Event) :=
  match avail with
  | [] => Some (s, [])
  | (t, b) :: rest =>
      '(s1, evs1) ← step s t b;
      '(s2, evs2) ← drain s1 rest;
      Some (s2, evs1 ++ evs2)
  end.

(** [SerialComms::poll]: the timeout test, then the loop. *)
Definition poll (s : SerialComms) (now : Z) (avail : list (Z * byte))
  : option (SerialComms * list Event) :=
  drain (after_timeout s now) avail.

(** Successive calls of [poll] from [loop()]. *)
Fixpoint polls (s : SerialComms) (calls : list (Z * list (Z * byte)))
  : option (SerialComms * list Event) :=
  match calls with
  | [] => Some (s, [])
  | (now, avail) :: rest =>
      '(s1, evs1) ← poll s now avail;
      '(s2, evs2) ← polls s1 rest;
      Some (s2, evs1 ++ evs2)
  end.

(** Modelled from the spec: [protocol::buildFrame] of protocol.h, which is
    not among the sources; "Given a message type and payload of length L,
    produces: start marker, BODY_LEN = L+1 as big-endian 16-bit, body =
    type byte followed by payload bytes, then checksum(body)". The result
    is the part of [frame] that was filled, [frameLen] is its length. *)
Definition buildFrame (msgType : byte) (payload : list byte) (len : Z)
  : list byte :=
  let body := msgType :: take (Z.to_nat len) payload in
  let bodyLen := len + 1 in
  [FRAME_START_BYTE; z2b (Z.shiftr bodyLen 8); z2b bodyLen]
    ++ body ++ [checksum body].

(** [SerialComms::sendFrame]: the bytes given to [Serial.write]. *)
Definition sendFrame (msgType : byte) (payload : list byte) (len : Z)
  : list byte :=
  buildFrame msgType payload len.

(** [SerialComms::sendButtonEvent] *)
Definition sendButtonEvent (buttonId : byte) (pressed : bool) : list byte :=
  let payload := [buttonId; if pressed then x01 else x00] in
  sendFrame MSG_BUTTON payload 2.

(** [SerialComms::sendHeartbeat] *)
Definition sendHeartbeat (status : byte) : list byte :=
  sendFrame MSG_HEARTBEAT [status] 1.

End Decoder.

(** ** The labels sub-structure as the specification words it

    "An ordered sequence of up to 4 records, each LEN(1) | TEXT(LEN bytes),
    consumed left-to-right; parsing stops early if fewer than 4 records are
    present or if a record's declared length would overrun the remaining
    payload." [decodeRecords n rest] reads at most [n] records from [rest]
    and gives their TEXT fields. *)
Fixpoint decodeRecords (n : nat) (rest : list byte) : list (list byte) :=
  match n, rest with
  | S n', l :: tl =>
      let k := Z.to_nat (b2z l) in
      if (k <=? length tl)%nat
      then take k tl :: decodeRecords n' (drop k tl)
      else []
  | _, _ => []
  end.

(** What a label slot shows for a record: the text cut to 31 bytes, as the C
    string the display reads. *)
Definition shown (text : list byte) : list byte := cstr (take 31 text).

(** [n] label slots: the records that were read, then empty strings. *)
Definition padLabels (n : nat) (recs : list (list byte)) : list (list byte) :=
  map shown recs ++ replicate (n - length recs) [].

(** ** Well-formed decoder states *)

Definition buf32 (b : list byte) : Prop := length b = 32%nat.

(** The arrays have their declared sizes, and while a body is being read or
    checked the length and the write index are within the frame. *)
Record wf (s : SerialComms) : Prop := mkWf {
  wf_buffer : length (_buffer s) = 512%nat;
  wf_labelBufs : length (labelBufs s) = 4%nat /\ Forall buf32 (labelBufs s);
  wf_body :
    _state s = READ_BODY ->
    1 <= _bodyLen s <= MAX_MSG_LEN /\ 0 <= _bodyIdx s < _bodyLen s;
  wf_checksum :
    _state s = READ_CHECKSUM -> 1 <= _bodyLen s <= MAX_MSG_LEN
}.

(** What is left at position [p] of the [len] payload bytes at [payload]. *)
Definition remaining (payload : list byte) (len p : Z) : list byte :=
  drop (Z.to_nat p) (take (Z.to_nat len) payload).

(** The state [processMessage] leaves: the flag is set and the scratch
    buffers of the label scan may have been overwritten. *)
Definition dispatched (s : SerialComms) (bufs' : list (list byte)) : SerialComms :=
  set_labelBufs (set_bridgeConnected s true) bufs'.

(** The callback slots. *)
Definition callbacks (s : SerialComms) : bool * bool * bool * bool * bool :=
  (_onDisplayText s, _onStatusText s, _onSetLeds s, _onClearDisplay s,
   _onSetLabels s).

(** A record on the wire. *)
Definition record (text : list byte) : list byte :=
  z2b (Z.of_nat (length text)) :: text.

(** A byte sequence on which the scan stops: nothing, or a length byte that
    announces more than follows. *)
Definition overruns (tail : list byte) : Prop :=
  match tail with
  | [] => True
  | l :: tl => Z.of_nat (length tl) < b2z l
  end.

(** The handler calls [processMessage] makes for a message, as a function
    of the callback slots alone. *)
Definition handlerCalls (s : SerialComms) (msgType : byte) (data : list byte)
  : list Event :=
  let nonempty := negb (Nat.eqb (length data) 0) in
  if Byte.eqb msgType MSG_DISPLAY_TEXT then
    if _onDisplayText s && nonempty then [DisplayTextCb data] else []
  else if Byte.eqb msgType MSG_STATUS then
    if _onStatusText s && nonempty then [StatusTextCb data] else []
  else if Byte.eqb msgType MSG_SET_LEDS then
    if _onSetLeds s && nonempty then [SetLedsCb data] else []
  else if Byte.eqb msgType MSG_CLEAR then
    if _onClearDisplay s then [ClearDisplayCb] else []
  else if Byte.eqb msgType MSG_SET_LABELS then
    if _onSetLabels s && nonempty
    then [SetLabelsCb (padLabels 4 (decodeRecords 4 data))] else []
  else [].

(** ** Frames on the wire *)

(** START(1) | BODY_LEN(2, big-endian) | BODY | CHECKSUM(1) *)
Definition frame (hi lo : byte) (body : list byte) (ck : byte) : list byte :=
  FRAME_START_BYTE :: hi :: lo :: body ++ [ck].

(** The BODY_LEN two length bytes declare. *)
Definition declared (hi lo : byte) : Z := 256 * b2z hi + b2z lo.

(** ** Concrete data for running the model *)

(** An additive checksum, one of the functions the specification allows. *)
Definition sum8 (body : list byte) : byte :=
  z2b (fold_right (fun b acc => b2z b + acc) 0 body).

(** The bytes [bs], all read at time [t]. *)
Definition stamp (t : Z) (bs : list byte) : list (Z * byte) :=
  map (fun b => (t, b)) bs.

(** The decoder after [setup()] of main.cpp: every callback registered. *)
Definition ready : SerialComms :=
  begin (onSetButtonLabels (onClearDisplay (onSetLeds (onStatusText
    (onDisplayText initial))))).

(** The decoder after it has read a start marker and the length bytes
    00 03 at time 0. *)
Definition in_body : SerialComms :=
  set_state (set_bodyLen ready 3) READ_BODY.

(** The frame of the specification's example, AA 00 03 02 02 01 CK, and the
    same frame with a wrong checksum byte. *)
Definition button_body : list byte := [MSG_BUTTON; x02; x01].
Definition button_frame : list byte :=
  frame x00 x03 button_body (sum8 button_body).
Definition corrupt_frame : list byte := frame x00 x03 button_body xff.

(** The decoder after it has read [button_frame] at time 0. *)
Definition after_button : SerialComms :=
  mkSerialComms WAIT_START (button_body ++ replicate 509 x00) 3 3 0 true
    true true true true true (replicate 4 (replicate 32 x00)).

(** Frames without payload. *)
Definition clear_frame : list byte :=
  frame x00 x01 [MSG_CLEAR] (sum8 [MSG_CLEAR]).
Definition empty_text_frame : list byte :=
  frame x00 x01 [MSG_DISPLAY_TEXT] (sum8 [MSG_DISPLAY_TEXT]).

(** A frame of a type that is not defined. *)
Definition unknown_frame : list byte :=
  frame x00 x02 [x09; x2a] (sum8 [x09; x2a]).

(** Labels "AB" and "C", then a record that declares 5 bytes of which 3
    are there. *)
Definition labels_payload : list byte :=
  [x02; x41; x42; x01; x43; x05; x44; x01; x45].

(** ** The decoder over several calls of poll *)

(** How far a frame has got: the bytes of it that were read, up to the
    first body byte. *)
Definition rank (st : ParseState) : Z :=
  match st with
  | WAIT_START => 0
  | READ_LEN_HI => 1
  | READ_LEN_LO => 2
  | READ_BODY => 3
  | READ_CHECKSUM => 4
  end.

(** The entries into [processMessage] among the events. *)
Definition dispatches (evs : list Event) : Z :=
  Z.of_nat (length (List.filter is_dispatch evs)).

(** The time of the last byte after [avail] was read. *)
Definition last_time (last : Z) (avail : list (Z * byte)) : Z :=
  fold_left (fun _ tb => fst tb) avail last.

(** No call of [poll] starts more than the timeout after the byte read
    last. *)
Fixpoint calm (last : Z) (calls : list (Z * list (Z * byte))) : bool :=
  match calls with
  | [] => true
  | (now, avail) :: rest =>
      (elapsed now last <=? FRAME_TIMEOUT_MS) && calm (last_time last avail) rest
  end.

(** All the bytes the calls read. *)
Definition bytes_read (calls : list (Z * list (Z * byte))) : list (Z * byte) :=
  concat (map snd calls).


(** ** main.cpp: the callbacks given to the decoder

    The display and the NeoPixel driver are external: what the callbacks
    do is the calls they make to them. *)

Inductive AppCall : Type :=
| SetNotificationText (text : list byte)  (* display.setNotificationText(buf) *)
| SetStatusText (text : list byte)        (* display.setStatusText(buf) *)
| SetButtonLabels (btn1 btn2 btn3 btn4 : list byte)
                                          (* display.setButtonLabels(...) *)
| DisplayUpdate                           (* display.update() *)
| SetPixelColor (pixel : byte) (color : Z)
                                          (* seesaw.setPixelColor(pixel, color) *)
| ShowPixels.                             (* seesaw.showPixels() *)

Module Main.

(** [onDisplayText(text, len)]; [buf] is the local [char buf[512]] as the
    call finds it. *)
Definition onDisplayText (buf text : list byte) (len : Z)
  : option (list AppCall) :=
  let copyLen := if len <? 512 - 1 then len else 512 - 1 in
  buf ← memcpy buf text copyLen;
  buf ← store buf copyLen x00;
  Some [SetNotificationText (cstr buf); DisplayUpdate].

(** [onStatusText(text, len)]; [buf] is the local [char buf[128]]. *)
Definition onStatusText (buf text : list byte) (len : Z)
  : option (list AppCall) :=
  let copyLen := if len <? 128 - 1 then len else 128 - 1 in
  buf ← memcpy buf text copyLen;
  buf ← store buf copyLen x00;
  Some [SetStatusText (cstr buf); DisplayUpdate].

(** The loop of [onSetLeds], from index [i] on. *)
Fixpoint ledLoop (fuel : nat) (data : list byte) (len i : Z)
  : option (list AppCall) :=
  match fuel with
  | O => None
  | S fuel' =>
      if i + 3 <? len then
        pixel ← load data i;
        r ← load data (i + 1);
        g ← load data (i + 2);
        b ← load data (i + 3);
        let color :=
          Z.lor (Z.lor (u32 (Z.shiftl (b2z r) 16)) (u32 (Z.shiftl (b2z g) 8)))
            (b2z b) in
        rest ← ledLoop fuel' data len (u16 (i + 4));
        Some (SetPixelColor pixel color :: rest)
      else Some []
  end.

(** [onSetLeds(data, len)]; a turn of the loop moves [i] on by 4, so
    [len] turns are more than it can make. *)
Definition onSetLeds (data : list byte) (len : Z) : option (list AppCall) :=
  calls ← ledLoop (S (Z.to_nat len)) data len 0;
  Some (calls ++ [ShowPixels]).

(** [onClearDisplay()]: "Ready", "", "1" "2" "3" "4". *)
Definition onClearDisplay : list AppCall :=
  [SetStatusText [x52; x65; x61; x64; x79];
   SetNotificationText [];
   SetButtonLabels [x31] [x32] [x33] [x34];
   DisplayUpdate].

(** [onSetButtonLabels(labels)], [labels] being an array of four strings. *)
Definition onSetButtonLabels (labels : list (list byte))
  : option (list AppCall) :=
  l0 ← labels !! 0%nat;
  l1 ← labels !! 1%nat;
  l2 ← labels !! 2%nat;
  l3 ← labels !! 3%nat;
  Some [SetButtonLabels l0 l1 l2 l3; DisplayUpdate].



End Main.

(** The pixel updates a SET_LEDS payload asks for, as the protocol table of
    config.h puts it: records [index, R, G, B]. *)
Fixpoint quads (data : list byte) : list AppCall :=
  match data with
  | p :: r :: g :: b :: rest =>
      SetPixelColor p (65536 * b2z r + 256 * b2z g + b2z b) :: quads rest
  | _ => []
  end.

(** A SET_LEDS payload of two pixels and a byte too many, and a status
    text of 130 bytes. *)
Definition leds_payload : list byte :=
  [x00; xff; x00; x00; x03; x00; x44; x00; x07].
Definition long_status : list byte := replicate 130 x41.

(** Frames for the text "Hi", for [leds_payload] and for
    [labels_payload]. *)
Definition hi_frame : list byte :=
  frame x00 x03 [MSG_DISPLAY_TEXT; x48; x69] (sum8 [MSG_DISPLAY_TEXT; x48; x69]).

(** [button_frame] read by three calls of [poll], 400 and 500 ms apart. *)
Definition button_pieces : list (Z * list (Z * byte)) :=
  [(400, stamp 400 [x03; MSG_BUTTON]); (900, stamp 900 [x02; x01; x05])].

(** * Properties *)

(** ** Bytes *)

Lemma b2z_range (b : byte) : 0 <= b2z b < 256.
Proof.
  unfold b2z. pose proof (Byte.to_N_bounded b). lia.
Qed.

Lemma z2b_b2z (b : byte) : z2b (b2z b) = b.
Proof.
  unfold z2b. rewrite Z.mod_small by apply b2z_range.
  unfold b2z. rewrite N2Z.id, Byte.of_to_N. reflexivity.
Qed.

Lemma b2z_z2b (z : Z) : b2z (z2b z) = z mod 256.
Proof.
  unfold z2b, b2z.
  assert (Hr : 0 <= z mod 256 < 256) by (apply Z.mod_pos_bound; lia).
  destruct (Byte.of_N (Z.to_N (z mod 256))) as [b|] eqn:E.
  - apply Byte.to_of_N in E. rewrite E. lia.
  - apply Byte.of_N_None_iff in E. lia.
Qed.

Lemma byte_eqb_refl (b : byte) : Byte.eqb b b = true.
Proof. apply Byte.byte_dec_lb. reflexivity. Qed.

Lemma byte_eqb_eq (a b : byte) : Byte.eqb a b = true <-> a = b.
Proof.
  split; [apply Byte.byte_dec_bl | intros ->; apply byte_eqb_refl].
Qed.

Lemma byte_eqb_neq (a b : byte) : Byte.eqb a b = false <-> a <> b.
Proof.
  split.
  - apply Byte.eqb_false.
  - intros Hne. destruct (Byte.eqb a b) eqn:E; [|reflexivity].
    apply byte_eqb_eq in E. contradiction.
Qed.

Lemma u16_small (z : Z) : 0 <= z < 65536 -> u16 z = z.
Proof. intros H. unfold u16. apply Z.mod_small. lia. Qed.

(** ** Memory *)

Lemma load_Some (mem : list byte) (i : Z) (b : byte) :
  0 <= i -> mem !! Z.to_nat i = Some b -> load mem i = Some b.
Proof.
  intros Hi Hb. unfold load.
  destruct (0 <=? i) eqn:E; [exact Hb | lia].
Qed.

Lemma store_Some (mem : list byte) (i : Z) (b : byte) :
  0 <= i < Z.of_nat (length mem) ->
  store mem i b = Some (<[Z.to_nat i := b]> mem).
Proof.
  intros Hi. unfold store.
  destruct (0 <=? i) eqn:E1; [|lia].
  destruct (i <? Z.of_nat (length mem)) eqn:E2; [reflexivity | lia].
Qed.


Lemma region_Some (mem : list byte) (off len : Z) :
  0 <= off -> 0 <= len -> off + len <= Z.of_nat (length mem) ->
  region mem off len = Some (take (Z.to_nat len) (drop (Z.to_nat off) mem)).
Proof.
  intros H1 H2 H3. unfold region.
  destruct (0 <=? off) eqn:E1; [|lia].
  destruct (0 <=? len) eqn:E2; [|lia].
  destruct (off + len <=? Z.of_nat (length mem)) eqn:E3; [reflexivity | lia].
Qed.

Lemma memcpy_Some (dst src : list byte) (n : Z) :
  0 <= n -> n <= Z.of_nat (length dst) -> n <= Z.of_nat (length src) ->
  memcpy dst src n = Some (take (Z.to_nat n) src ++ drop (Z.to_nat n) dst).
Proof.
  intros H1 H2 H3. unfold memcpy.
  destruct (0 <=? n) eqn:E1; [|lia].
  destruct (n <=? Z.of_nat (length dst)) eqn:E2; [|lia].
  destruct (n <=? Z.of_nat (length src)) eqn:E3; [reflexivity | lia].
Qed.

(** ** C strings *)

Lemma cstr_length (mem : list byte) : (length (cstr mem) <= length mem)%nat.
Proof.
  induction mem as [|b rest IH]; simpl; [lia|].
  destruct (Byte.eqb b x00); simpl; lia.
Qed.

(** Where no NUL occurs the whole list is read. *)
Lemma cstr_no_nul (text : list byte) :
  Forall (fun b => b <> x00) text -> cstr (text ++ [x00]) = text.
Proof.
  induction 1 as [|b rest Hb _ IH]; simpl.
  - reflexivity.
  - apply byte_eqb_neq in Hb. rewrite Hb, IH. reflexivity.
Qed.

(** A terminator written right behind [text] hides what follows it. *)
Lemma cstr_terminated (text tail : list byte) :
  cstr (text ++ x00 :: tail) = cstr (text ++ [x00]).
Proof.
  induction text as [|b rest IH]; simpl.
  - reflexivity.
  - destruct (Byte.eqb b x00); [reflexivity | now rewrite IH].
Qed.

Lemma cstr_app_nul (text : list byte) : cstr (text ++ [x00]) = cstr text.
Proof.
  induction text as [|b rest IH]; simpl.
  - reflexivity.
  - destruct (Byte.eqb b x00); [reflexivity | now rewrite IH].
Qed.

Lemma shown_length (text : list byte) : (length (shown text) <= 31)%nat.
Proof.
  unfold shown. pose proof (cstr_length (take 31 text)) as H.
  rewrite length_take in H. lia.
Qed.

Lemma shown_no_nul (text : list byte) :
  Forall (fun b => b <> x00) text -> shown text = take 31 text.
Proof.
  intros H. unfold shown. rewrite <- cstr_app_nul.
  apply cstr_no_nul. now apply Forall_take.
Qed.

(** ** The label scan *)

Lemma mapM_app_Some {A B : Type} (f : A -> option B) (l1 l2 : list A)
  (k1 k2 : list B) :
  mapM f l1 = Some k1 -> mapM f l2 = Some k2 ->
  mapM f (l1 ++ l2) = Some (k1 ++ k2).
Proof.
  intros H1 H2. apply mapM_Some. apply Forall2_app; now apply mapM_Some.
Qed.

Lemma deref_bufs (bufs : list (list byte)) (i : nat) :
  (i <= length bufs)%nat ->
  mapM (deref bufs) (map LabelBuf (seq 0 i)) = Some (map cstr (take i bufs)).
Proof.
  induction i as [|i IH]; intros Hi.
  - reflexivity.
  - destruct (lookup_lt_is_Some_2 bufs i) as [buf Hbuf]; [lia|].
    rewrite seq_S, map_app, (take_S_r _ _ _ Hbuf), map_app. simpl.
    apply mapM_app_Some; [apply IH; lia|].
    simpl. rewrite Hbuf. reflexivity.
Qed.

Lemma deref_literals (bufs : list (list byte)) (n : nat) :
  mapM (deref bufs) (replicate n EmptyLiteral) = Some (replicate n []).
Proof.
  induction n as [|n IH]; [reflexivity|].
  simpl. simpl in IH. rewrite IH. reflexivity.
Qed.

(** The labels the handler reads when the scan is left after [i] records. *)
Lemma deref_scan (bufs : list (list byte)) (i n : nat) :
  (i <= length bufs)%nat ->
  mapM (deref bufs) (map LabelBuf (seq 0 i) ++ replicate n EmptyLiteral)
  = Some (map cstr (take i bufs) ++ replicate n []).
Proof.
  intros Hi. apply mapM_app_Some; [now apply deref_bufs | apply deref_literals].
Qed.

Lemma labels_insert (i n : nat) :
  <[i := LabelBuf i]> (map LabelBuf (seq 0 i) ++ replicate (S n) EmptyLiteral)
  = map LabelBuf (seq 0 (S i)) ++ replicate n EmptyLiteral.
Proof.
  rewrite insert_app_r_alt by (rewrite length_map, length_seq; lia).
  rewrite length_map, length_seq, Nat.sub_diag.
  rewrite seq_S, map_app, <- app_assoc. reflexivity.
Qed.

(** The scratch buffer after [memcpy] and the terminator holds the record's
    text, cut to 31 bytes. *)
Lemma label_buffer (dst tl : list byte) (k : nat) :
  buf32 dst -> (k <= length tl)%nat ->
  let c := (k `min` 31)%nat in
  cstr (<[c := x00]> (take c tl ++ drop c dst)) = shown (take k tl)
  /\ buf32 (<[c := x00]> (take c tl ++ drop c dst)).
Proof.
  intros Hdst Hk c. unfold buf32 in *.
  assert (Hc : length (take c tl) = c) by (rewrite length_take; lia).
  split.
  - rewrite insert_app_r_alt by lia. rewrite Hc, Nat.sub_diag.
    destruct (drop c dst) as [|d rest] eqn:E.
    { apply (f_equal length) in E. rewrite length_drop in E. simpl in E. lia. }
    simpl. rewrite cstr_terminated, cstr_app_nul.
    unfold shown. rewrite take_take. f_equal. f_equal. lia.
  - rewrite length_insert, length_app, Hc, length_drop. lia.
Qed.

Section LabelScan.

Variables (payload : list byte) (len : Z).
Hypothesis len_mem : 0 <= len <= Z.of_nat (length payload).
Hypothesis len_u16 : len < 65536.


Lemma rest_end (p : Z) : len <= p -> remaining payload len p = [].
Proof.
  intros Hp. unfold remaining. apply drop_ge. rewrite length_take. lia.
Qed.

Lemma rest_cons (p : Z) :
  0 <= p < len ->
  exists b, payload !! Z.to_nat p = Some b /\ remaining payload len p = b :: remaining payload len (p + 1).
Proof.
  intros Hp.
  destruct (lookup_lt_is_Some_2 payload (Z.to_nat p)) as [b Hb]; [lia|].
  exists b. split; [exact Hb|].
  unfold remaining. replace (Z.to_nat (p + 1)) with (S (Z.to_nat p)) by lia.
  apply drop_S. rewrite lookup_take_lt by lia. exact Hb.
Qed.

Lemma rest_length (p : Z) :
  0 <= p <= len -> Z.of_nat (length (remaining payload len p)) = len - p.
Proof.
  intros Hp. unfold remaining. rewrite length_drop, length_take. lia.
Qed.

Lemma rest_source (p : Z) (c : nat) :
  0 <= p -> p + Z.of_nat c <= len ->
  take c (drop (Z.to_nat p) payload) = take c (remaining payload len p).
Proof.
  intros Hp Hc. unfold remaining.
  rewrite skipn_firstn_comm, take_take. f_equal. lia.
Qed.

Lemma rest_drop (p : Z) (k : nat) :
  0 <= p -> drop k (remaining payload len p) = remaining payload len (p + Z.of_nat k).
Proof.
  intros Hp. unfold remaining. rewrite drop_drop. f_equal. lia.
Qed.

(** From [labelIdx = i] and [pos = p] the loop ends, within the turns
    that are left, and the handler reads the records of the remaining
    payload in the slots from [i] on. *)
Lemma labelLoop_spec (n : nat) :
  forall (i : nat) (bufs0 : list (list byte)) (p : Z),
    (i + n = 4)%nat ->
    length bufs0 = 4%nat -> Forall buf32 bufs0 ->
    0 <= p <= len ->
    exists st,
      labelLoop (S n) payload len
        (mkLabelScan (map LabelBuf (seq 0 i) ++ replicate n EmptyLiteral)
           bufs0 (Z.of_nat i) p) = Some st
      /\ length (bufs st) = 4%nat /\ Forall buf32 (bufs st)
      /\ mapM (deref (bufs st)) (labels st)
         = Some (map cstr (take i bufs0)
                   ++ padLabels n (decodeRecords n (remaining payload len p))).
Proof.
  induction n as [|n IH]; intros i bufs0 p Hin Hlen Hall Hp.
  - eexists. split.
    { simpl. unfold labelTurn. simpl.
      replace (Z.of_nat i <? 4) with false by lia.
      rewrite andb_false_r. simpl. reflexivity. }
    cbn [bufs labels]. repeat split; try assumption.
    apply (deref_scan bufs0 i 0). lia.
  - cbn [labelLoop]. unfold labelTurn. cbn [pos labelIdx labels bufs].
    destruct (p <? len) eqn:Epos.
    2:{ (* the payload is used up *)
      simpl. eexists. split; [reflexivity|]. cbn [bufs labels].
      repeat split; try assumption.
      rewrite rest_end by lia.
      etrans; [apply (deref_scan bufs0 i (S n)); lia | reflexivity]. }
    replace (Z.of_nat i <? 4) with true by lia. simpl negb. cbv iota.
    destruct (rest_cons p) as (b & Hb & Hrest); [lia|].
    rewrite (load_Some _ _ _ (proj1 Hp) Hb). cbn [mbind option_bind].
    rewrite (u16_small (p + 1)) by lia.
    pose proof (b2z_range b) as Hbr.
    pose proof (rest_length (p + 1) ltac:(lia)) as Hrl.
    rewrite Hrest. cbn [decodeRecords].
    destruct (p + 1 + b2z b >? len) eqn:Eover.
    + (* the record's length runs over the payload end *)
      eexists. split; [reflexivity|]. cbn [bufs labels].
      repeat split; try assumption.
      replace (Z.to_nat (b2z b) <=? length (remaining payload len (p + 1)))%nat with false
        by (symmetry; apply Nat.leb_gt; lia).
      rewrite deref_scan by lia. reflexivity.
    + replace (Z.to_nat (b2z b) <=? length (remaining payload len (p + 1)))%nat with true
        by (symmetry; apply Nat.leb_le; lia).
      set (k := Z.to_nat (b2z b)).
      set (copyLen := if b2z b <? 31 then b2z b else 31).
      assert (HcopyLen : Z.to_nat copyLen = (k `min` 31)%nat).
      { unfold copyLen, k. destruct (b2z b <? 31) eqn:E; lia. }
      assert (Hcl : 0 <= copyLen <= 31).
      { unfold copyLen. destruct (b2z b <? 31) eqn:E; lia. }
      rewrite Nat2Z.id.
      destruct (lookup_lt_is_Some_2 bufs0 i) as [dst Hdst]; [lia|].
      rewrite Hdst. cbn [mbind option_bind].
      assert (Hd32 : buf32 dst).
      { eapply Forall_lookup_1; eassumption. }
      rewrite memcpy_Some; cycle 1; try lia.
      { unfold buf32 in Hd32. lia. }
      { rewrite length_drop. lia. }
      cbn [mbind option_bind].
      rewrite HcopyLen.
      rewrite (rest_source (p + 1) (k `min` 31)) by lia.
      destruct (label_buffer dst (remaining payload len (p + 1)) k Hd32 ltac:(lia))
        as [Hshown Hb32].
      rewrite store_Some; cycle 1.
      { rewrite length_app, length_take, length_drop.
        unfold buf32 in Hd32. lia. }
      cbn [mbind option_bind]. rewrite HcopyLen.
      rewrite labels_insert.
      rewrite (u16_small (p + 1 + b2z b)) by lia.
      replace (Z.of_nat i + 1) with (Z.of_nat (S i)) by lia.
      edestruct (IH (S i)
                   (<[i := <[(k `min` 31)%nat := x00]>
                             (take (k `min` 31)%nat (remaining payload len (p + 1))
                                ++ drop (k `min` 31)%nat dst)]> bufs0)
                   (p + 1 + b2z b))
        as (st & Hloop & Hl4 & Hall4 & Hstrs).
      { lia. }
      { rewrite length_insert. exact Hlen. }
      { apply Forall_insert; assumption. }
      { lia. }
      exists st. split; [exact Hloop|].
      repeat split; try assumption.
      rewrite Hstrs. f_equal.
      rewrite rest_drop by lia.
      replace (p + 1 + Z.of_nat k) with (p + 1 + b2z b) by lia.
      erewrite take_S_r by (apply list_lookup_insert_eq; lia).
      rewrite take_insert_ge by lia.
      rewrite map_app. cbn [map]. rewrite Hshown.
      unfold padLabels. cbn [map length]. rewrite <- app_assoc.
      reflexivity.
Qed.

End LabelScan.

(** ** processMessage *)



Lemma handlerCalls_callbacks (s s' : SerialComms) (msgType : byte)
  (data : list byte) :
  callbacks s' = callbacks s ->
  handlerCalls s' msgType data = handlerCalls s msgType data.
Proof.
  unfold callbacks, handlerCalls. intros [= -> -> -> -> ->]. reflexivity.
Qed.

(** On [len] bytes that lie in memory [processMessage] runs to its end: it
    sets the flag and makes the calls of [handlerCalls]. *)
Lemma processMessage_spec (s : SerialComms) (msgType : byte)
  (payload : list byte) (len : Z) :
  wf s -> 0 <= len <= Z.of_nat (length payload) -> len < 65536 ->
  exists bufs',
    processMessage s msgType payload len
    = Some (dispatched s bufs',
            ProcessMessage msgType (take (Z.to_nat len) payload)
              :: handlerCalls s msgType (take (Z.to_nat len) payload))
    /\ length bufs' = 4%nat /\ Forall buf32 bufs'.
Proof.
  intros Hwf Hlen H16. destruct (wf_labelBufs s Hwf) as [Hl4 Hall].
  assert (Hne : (len >? 0)
                = negb (Nat.eqb (length (take (Z.to_nat len) payload)) 0)).
  { rewrite length_take.
    destruct (Nat.eqb_spec (Z.to_nat len `min` length payload) 0); simpl; lia. }
  unfold processMessage, handlerCalls. rewrite region_Some by lia.
  cbn [mbind option_bind]. simpl (drop (Z.to_nat 0) _).
  rewrite <- Hne.
  change (_onDisplayText (set_bridgeConnected s true)) with (_onDisplayText s).
  change (_onStatusText (set_bridgeConnected s true)) with (_onStatusText s).
  change (_onSetLeds (set_bridgeConnected s true)) with (_onSetLeds s).
  change (_onClearDisplay (set_bridgeConnected s true)) with (_onClearDisplay s).
  change (_onSetLabels (set_bridgeConnected s true)) with (_onSetLabels s).
  repeat match goal with
  | |- context [if Byte.eqb msgType ?c then _ else _] =>
      destruct (Byte.eqb msgType c)
  end.
  1-4, 6:
    try match goal with
        | |- context [if ?c then _ else _] => destruct c
        end;
    (exists (labelBufs s); split; [reflexivity | auto]).
  destruct (_onSetLabels s && (len >? 0)).
  2:{ exists (labelBufs s). split; [reflexivity | auto]. }
  destruct (labelLoop_spec payload len Hlen H16 4 0 (labelBufs s) 0)
    as (st & Hloop & Hl & Hall' & Hstrs); try assumption; try lia.
  change (labelLoop 5 payload len
            (mkLabelScan (replicate 4 EmptyLiteral)
               (labelBufs (set_bridgeConnected s true)) 0 0))
    with (labelLoop 5 payload len
            (mkLabelScan (map LabelBuf (seq 0 0) ++ replicate 4 EmptyLiteral)
               (labelBufs s) (Z.of_nat 0) 0)).
  rewrite Hloop. cbn [mbind option_bind]. rewrite Hstrs.
  cbn [mbind option_bind].
  exists (bufs st). split; [reflexivity | auto].
Qed.

(** However it ends, [processMessage] has set the flag. *)
Lemma processMessage_flag (s s' : SerialComms) (msgType : byte)
  (payload : list byte) (len : Z) (evs : list Event) :
  processMessage s msgType payload len = Some (s', evs) ->
  _bridgeConnected s' = true.
Proof.
  unfold processMessage. intros H.
  destruct (region payload 0 len) as [data|]; [|discriminate].
  cbn [mbind option_bind] in H.
  repeat match type of H with
  | context [if ?c then _ else _] => destruct c
  end;
  try (injection H as <- _; reflexivity).
  destruct (labelLoop 5 payload len _) as [st|]; [|discriminate].
  cbn [mbind option_bind] in H.
  destruct (mapM (deref (bufs st)) (labels st)) as [strs|]; [|discriminate].
  injection H as <- _. reflexivity.
Qed.

Lemma decodeRecords_stop (n : nat) (tail : list byte) :
  overruns tail -> decodeRecords n tail = [].
Proof.
  destruct n, tail as [|l tl]; simpl; try reflexivity.
  intros H. replace (Z.to_nat (b2z l) <=? length tl)%nat with false;
    [reflexivity | symmetry; apply Nat.leb_gt; lia].
Qed.

(** Records are read back in order, until [n] are read or the scan stops. *)
Lemma decodeRecords_records (texts : list (list byte)) :
  forall (n : nat) (tail : list byte),
    Forall (fun t => (length t <= 255)%nat) texts ->
    (length texts <= n)%nat ->
    length texts = n \/ overruns tail ->
    decodeRecords n (concat (map record texts) ++ tail) = texts.
Proof.
  induction texts as [|t texts IH]; intros n tail Hall Hn Hstop.
  - simpl. destruct Hstop as [<- | Hstop]; [reflexivity|].
    now apply decodeRecords_stop.
  - destruct n as [|n]; [simpl in Hn; lia|].
    inversion Hall as [|? ? Ht Hall']; subst.
    change (concat (map record (t :: texts)))
      with ((z2b (Z.of_nat (length t)) :: t) ++ concat (map record texts)).
    cbn [app decodeRecords].
    rewrite b2z_z2b, Z.mod_small by lia. rewrite Nat2Z.id.
    rewrite <- app_assoc.
    replace (length t <=? length (t ++ concat (map record texts) ++ tail))%nat
      with true by (symmetry; apply Nat.leb_le; rewrite length_app; lia).
    rewrite take_app_length, drop_app_length.
    f_equal. apply IH; [assumption | simpl in Hn; lia |].
    destruct Hstop as [Hstop | Hstop]; [left; simpl in Hstop; lia | now right].
Qed.

Lemma padLabels_length (n : nat) (recs : list (list byte)) :
  (length recs <= n)%nat -> length (padLabels n recs) = n.
Proof.
  intros H. unfold padLabels.
  rewrite length_app, length_map, length_replicate. lia.
Qed.

Lemma decodeRecords_length (n : nat) :
  forall rest : list byte, (length (decodeRecords n rest) <= n)%nat.
Proof.
  induction n as [|n IH]; intros [|l tl]; simpl; try lia.
  destruct (Z.to_nat (b2z l) <=? length tl)%nat; simpl; [|lia].
  specialize (IH (drop (Z.to_nat (b2z l)) tl)). lia.
Qed.

Lemma padLabels_bound (n : nat) (recs : list (list byte)) :
  Forall (fun l => (length l <= 31)%nat) (padLabels n recs).
Proof.
  unfold padLabels. apply Forall_app. split.
  - apply Forall_forall. intros l Hin.
    apply list_elem_of_In, in_map_iff in Hin. destruct Hin as (t & <- & _).
    apply shown_length.
  - apply Forall_replicate. simpl. lia.
Qed.

(** ** The length field *)

Lemma land_high_low (a b : Z) :
  0 <= b < 256 -> Z.land (Z.shiftl a 8) b = 0.
Proof.
  intros Hb. apply Z.bits_inj'. intros n Hn.
  rewrite Z.land_spec, Z.bits_0.
  destruct (Z.lt_ge_cases n 8) as [Hlt | Hge].
  - rewrite Z.shiftl_spec_low by lia. reflexivity.
  - rewrite (Z.bits_above_log2 b n); [apply andb_false_r | lia |].
    destruct (Z.eq_dec b 0) as [-> | Hnz]; [simpl; lia|].
    apply Z.log2_lt_pow2; [lia|].
    apply Z.lt_le_trans with (2 ^ 8); [simpl; lia|].
    apply Z.pow_le_mono_r; lia.
Qed.

(** [_bodyLen = (uint16_t)hi << 8; _bodyLen |= lo] *)
Lemma length_bytes (hi lo : byte) :
  u16 (Z.lor (u16 (Z.shiftl (b2z hi) 8)) (b2z lo)) = declared hi lo.
Proof.
  pose proof (b2z_range hi) as Hhi. pose proof (b2z_range lo) as Hlo.
  assert (Hs : Z.shiftl (b2z hi) 8 = 256 * b2z hi).
  { rewrite Z.shiftl_mul_pow2 by lia. change (2 ^ 8) with 256. lia. }
  assert (Hor : Z.lor (Z.shiftl (b2z hi) 8) (b2z lo) = declared hi lo).
  { pose proof (Z.add_lor_land (Z.shiftl (b2z hi) 8) (b2z lo)) as H.
    rewrite land_high_low in H by assumption. unfold declared. lia. }
  rewrite (u16_small (Z.shiftl _ _)) by lia.
  rewrite Hor. apply u16_small. unfold declared. lia.
Qed.

Lemma declared_range (hi lo : byte) : 0 <= declared hi lo < 65536.
Proof.
  pose proof (b2z_range hi). pose proof (b2z_range lo). unfold declared. lia.
Qed.

(** The two length bytes the encoder writes for a body length. *)
Lemma declared_encoded (n : Z) :
  0 <= n < 65536 -> declared (z2b (Z.shiftr n 8)) (z2b n) = n.
Proof.
  intros Hn. unfold declared. rewrite !b2z_z2b.
  rewrite Z.shiftr_div_pow2 by lia. change (2 ^ 8) with 256.
  rewrite (Z.mod_small (n / 256)); [| split; [apply Z.div_pos; lia |
    apply Z.div_lt_upper_bound; lia]].
  pose proof (Z.div_mod n 256 ltac:(lia)). lia.
Qed.

(** ** The decoder, byte by byte *)

Ltac fields :=
  unfold dispatched, set_state, set_buffer, set_bodyLen, set_bodyIdx,
    set_lastByteTime, set_bridgeConnected, set_labelBufs in *;
  cbn [_state _buffer _bodyLen _bodyIdx _lastByteTime _bridgeConnected
       _onDisplayText _onStatusText _onSetLeds _onClearDisplay _onSetLabels
       labelBufs mbind option_bind] in *.

Section DecoderProofs.

Variable checksum : list byte -> byte.

Lemma drain_app (a b : list (Z * byte)) :
  forall s : SerialComms,
    drain checksum s (a ++ b)
    = '(s1, e1) ← drain checksum s a;
      '(s2, e2) ← drain checksum s1 b;
      Some (s2, e1 ++ e2).
Proof.
  induction a as [|[t x] a IH]; intros s.
  - simpl. destruct (drain checksum s b) as [[s2 e2]|]; reflexivity.
  - simpl. destruct (step checksum s t x) as [[s1 e1]|]; [|reflexivity].
    simpl. rewrite IH.
    destruct (drain checksum s1 a) as [[s2 e2]|]; [|reflexivity].
    simpl. destruct (drain checksum s2 b) as [[s3 e3]|]; [|reflexivity].
    simpl. rewrite app_assoc. reflexivity.
Qed.

(** While it waits for a start marker [poll] has no timeout to apply. *)
Lemma poll_idle (s : SerialComms) (now : Z) (avail : list (Z * byte)) :
  _state s = WAIT_START -> poll checksum s now avail = drain checksum s avail.
Proof.
  intros H. unfold poll, after_timeout. rewrite H. reflexivity.
Qed.

(** The start marker and the two length bytes. *)
Lemma drain_header (s : SerialComms) (t0 t1 t2 : Z) (hi lo : byte) :
  _state s = WAIT_START ->
  drain checksum s [(t0, FRAME_START_BYTE); (t1, hi); (t2, lo)]
  = Some (let s2 := set_bodyLen (set_lastByteTime s t2) (declared hi lo) in
          if (declared hi lo =? 0) || (declared hi lo >? MAX_MSG_LEN)
          then set_state s2 WAIT_START
          else set_state (set_bodyIdx s2 0) READ_BODY, []).
Proof.
  intros Hst. destruct s as [st buf bl bi lt bc c1 c2 c3 c4 c5 lb].
  simpl in Hst; subst.
  unfold drain, step. cbn [_state set_lastByteTime set_state set_bodyLen
    _bodyLen mbind option_bind]. 
  change (Byte.eqb FRAME_START_BYTE FRAME_START_BYTE) with true. cbv iota.
  cbn [_state set_lastByteTime set_state set_bodyLen _bodyLen mbind option_bind
       _buffer _bodyIdx _lastByteTime _bridgeConnected _onDisplayText
       _onStatusText _onSetLeds _onClearDisplay _onSetLabels labelBufs].
  rewrite length_bytes.
  destruct ((declared hi lo =? 0) || (declared hi lo >? MAX_MSG_LEN));
    reflexivity.
Qed.


(** The bytes of the body: from [READ_BODY] the bytes that are still
    missing fill the buffer behind the ones already stored and lead to
    [READ_CHECKSUM]. *)
Lemma drain_body (avail : list (Z * byte)) :
  forall s : SerialComms,
    wf s -> _state s = READ_BODY ->
    Z.of_nat (length avail) = _bodyLen s - _bodyIdx s ->
    exists buf' t',
      drain checksum s avail
      = Some (set_state
                (set_bodyIdx (set_buffer (set_lastByteTime s t') buf')
                   (_bodyLen s))
                READ_CHECKSUM, [])
      /\ length buf' = 512%nat
      /\ take (Z.to_nat (_bodyLen s)) buf'
         = take (Z.to_nat (_bodyIdx s)) (_buffer s) ++ map snd avail.
Proof.
  induction avail as [|[t b] rest IH]; intros s Hwf Hst Hlen.
  - destruct (wf_body s Hwf Hst) as [_ Hidx]. simpl in Hlen. lia.
  - destruct (wf_body s Hwf Hst) as [Hbl Hidx].
    pose proof (wf_buffer s Hwf) as Hbuf.
    pose proof (wf_labelBufs s Hwf) as Hlb.
    destruct s as [st buf bl bi lt bc c1 c2 c3 c4 c5 lb].
    fields. subst st. unfold MAX_MSG_LEN in Hbl.
    cbn [drain]. unfold step. fields.
    rewrite store_Some by lia. fields.
    rewrite u16_small by lia.
    assert (Htake : take (S (Z.to_nat bi)) (<[Z.to_nat bi := b]> buf)
                    = take (Z.to_nat bi) buf ++ [b]).
    { erewrite take_S_r by (apply list_lookup_insert_eq; lia).
      rewrite take_insert_ge by lia. reflexivity. }
    destruct (bi + 1 >=? bl) eqn:Edone.
    + destruct rest as [|? ?]; [|simpl in Hlen; lia].
      exists (<[Z.to_nat bi := b]> buf), t. fields. cbn [drain]. fields.
      replace bl with (bi + 1) by lia.
      split; [reflexivity|]. split; [now rewrite length_insert|].
      replace (Z.to_nat (bi + 1)) with (S (Z.to_nat bi)) by lia.
      exact Htake.
    + edestruct (IH (mkSerialComms READ_BODY (<[Z.to_nat bi := b]> buf) bl
                       (bi + 1) t bc c1 c2 c3 c4 c5 lb))
        as (buf' & t' & Hdrain & Hlen' & Htake').
      { constructor; fields; try assumption.
        - now rewrite length_insert.
        - intros _. unfold MAX_MSG_LEN. lia.
        - discriminate. }
      { reflexivity. }
      { fields. simpl in Hlen. lia. }
      exists buf', t'. fields. rewrite Hdrain. fields.
      split; [reflexivity|]. split; [assumption|].
      rewrite Htake'.
      replace (Z.to_nat (bi + 1)) with (S (Z.to_nat bi)) by lia.
      rewrite Htake. cbn [map snd]. rewrite <- app_assoc. reflexivity.
Qed.

(** The checksum byte of a body that is complete in the buffer. *)
Lemma step_checksum (s : SerialComms) (t : Z) (ck : byte) :
  wf s -> _state s = READ_CHECKSUM ->
  exists msgType payload,
    take (Z.to_nat (_bodyLen s)) (_buffer s) = msgType :: payload
    /\ (ck = checksum (msgType :: payload) ->
        exists bufs',
          step checksum s t ck
          = Some (set_state (dispatched (set_lastByteTime s t) bufs') WAIT_START,
                  ProcessMessage msgType payload
                    :: handlerCalls s msgType payload)
          /\ length bufs' = 4%nat /\ Forall buf32 bufs')
    /\ (ck <> checksum (msgType :: payload) ->
        step checksum s t ck
        = Some (set_state (set_lastByteTime s t) WAIT_START, [])).
Proof.
  intros Hwf Hst.
  pose proof (wf_checksum s Hwf Hst) as Hbl. unfold MAX_MSG_LEN in Hbl.
  pose proof (wf_buffer s Hwf) as Hbuf.
  pose proof (wf_labelBufs s Hwf) as Hlb.
  destruct s as [st buf bl bi lt bc c1 c2 c3 c4 c5 lb].
  fields. subst st.
  destruct buf as [|b0 mem]; [simpl in Hbuf; lia|].
  exists b0, (take (Z.to_nat (bl - 1)) mem).
  assert (Hbody : take (Z.to_nat bl) (b0 :: mem)
                  = b0 :: take (Z.to_nat (bl - 1)) mem).
  { replace (Z.to_nat bl) with (S (Z.to_nat (bl - 1))) by lia. reflexivity. }
  split; [exact Hbody|].
  unfold step. fields. rewrite region_Some by lia.
  fields. change (drop (Z.to_nat 0) (b0 :: mem)) with (b0 :: mem).
  rewrite Hbody. split.
  - intros ->. rewrite byte_eqb_refl.
    unfold load.
    change ((b0 :: mem) !! Z.to_nat 0) with (Some b0).
    change (drop 1 (b0 :: mem)) with mem.
    cbn [Z.leb Z.compare]. fields. rewrite (u16_small (bl - 1)) by lia.
    destruct (processMessage_spec
                (mkSerialComms READ_CHECKSUM (b0 :: mem) bl bi t bc c1 c2 c3
                   c4 c5 lb) b0 mem (bl - 1)) as (bufs' & Hpm & Hl & Hall).
    { constructor; fields; try assumption; [discriminate | intros _].
      unfold MAX_MSG_LEN. lia. }
    { simpl in Hbuf. lia. }
    { lia. }
    rewrite Hpm. fields. exists bufs'. split; [reflexivity | auto].
  - intros Hne. apply byte_eqb_neq in Hne. rewrite Hne. reflexivity.
Qed.


(** The bytes of a frame, whatever the times at which they were read. *)
Lemma frame_split (avail : list (Z * byte)) (hi lo : byte) (body : list byte)
  (ck : byte) :
  map snd avail = frame hi lo body ck ->
  exists t0 t1 t2 avb t3,
    avail = [(t0, FRAME_START_BYTE); (t1, hi); (t2, lo)] ++ avb ++ [(t3, ck)]
    /\ map snd avb = body.
Proof.
  unfold frame.
  destruct avail as [|[t0 x0] [|[t1 x1] [|[t2 x2] av]]]; simpl;
    try discriminate.
  intros [= -> -> -> H].
  apply map_eq_app in H. destruct H as (avb & l2 & -> & Hb & Hck).
  destruct l2 as [|[t3 x3] [|? ?]]; simpl in Hck; try discriminate.
  injection Hck as ->.
  exists t0, t1, t2, avb, t3. split; [reflexivity | exact Hb].
Qed.

(** Start marker, a length within bounds and the body: the body is in the
    buffer and the checksum byte is awaited. *)
Lemma drain_to_checksum (s : SerialComms) (t0 t1 t2 : Z) (hi lo : byte)
  (avb : list (Z * byte)) :
  wf s -> _state s = WAIT_START ->
  1 <= declared hi lo <= MAX_MSG_LEN ->
  declared hi lo = Z.of_nat (length avb) ->
  exists s3,
    drain checksum s
      ([(t0, FRAME_START_BYTE); (t1, hi); (t2, lo)] ++ avb) = Some (s3, [])
    /\ wf s3 /\ _state s3 = READ_CHECKSUM
    /\ take (Z.to_nat (_bodyLen s3)) (_buffer s3) = map snd avb
    /\ callbacks s3 = callbacks s
    /\ _bridgeConnected s3 = _bridgeConnected s
    /\ labelBufs s3 = labelBufs s.
Proof.
  intros Hwf Hst Hdecl Hlen.
  rewrite drain_app, drain_header by assumption.
  replace ((declared hi lo =? 0) || (declared hi lo >? MAX_MSG_LEN))
    with false by (unfold MAX_MSG_LEN in *; lia).
  pose proof (wf_buffer s Hwf) as Hbuf.
  pose proof (wf_labelBufs s Hwf) as Hlb.
  destruct s as [st buf bl bi lt bc c1 c2 c3 c4 c5 lb]. fields. subst st.
  destruct (drain_body avb
              (mkSerialComms READ_BODY buf (declared hi lo) 0 t2 bc c1 c2 c3
                 c4 c5 lb)) as (buf' & t' & Hdrain & Hlen' & Htake).
  { constructor; fields; try assumption; [intros _; lia | discriminate]. }
  { reflexivity. }
  { fields. lia. }
  fields. rewrite Hdrain. fields. cbn [app].
  eexists. split; [reflexivity|]. fields.
  split; [|auto].
  constructor; fields; try assumption; [discriminate | intros _; lia].
Qed.

(** A whole frame with a length within bounds, from [WAIT_START]. *)
Lemma drain_frame (s : SerialComms) (avail : list (Z * byte)) (hi lo : byte)
  (body : list byte) (ck : byte) :
  wf s -> _state s = WAIT_START ->
  1 <= declared hi lo <= MAX_MSG_LEN ->
  declared hi lo = Z.of_nat (length body) ->
  map snd avail = frame hi lo body ck ->
  exists msgType payload,
    body = msgType :: payload
    /\ (ck = checksum body ->
        exists s',
          drain checksum s avail
          = Some (s', ProcessMessage msgType payload
                        :: handlerCalls s msgType payload)
          /\ wf s' /\ _state s' = WAIT_START
          /\ callbacks s' = callbacks s
          /\ _bridgeConnected s' = true)
    /\ (ck <> checksum body ->
        exists s',
          drain checksum s avail = Some (s', [])
          /\ wf s' /\ _state s' = WAIT_START
          /\ callbacks s' = callbacks s
          /\ _bridgeConnected s' = _bridgeConnected s
          /\ labelBufs s' = labelBufs s).
Proof.
  intros Hwf Hst Hdecl Hlen Hframe.
  destruct (frame_split _ _ _ _ _ Hframe)
    as (t0 & t1 & t2 & avb & t3 & -> & Hbody).
  destruct (drain_to_checksum s t0 t1 t2 hi lo avb)
    as (s3 & Hdrain & Hwf3 & Hst3 & Htake & Hcb & Hbc & Hlb); try assumption.
  { rewrite Hlen, <- Hbody, length_map. reflexivity. }
  destruct (step_checksum s3 t3 ck Hwf3 Hst3)
    as (msgType & payload & Hbuf & Hok & Hbad).
  rewrite Htake, Hbody in Hbuf.
  exists msgType, payload. split; [exact Hbuf|].
  rewrite app_assoc, drain_app, Hdrain. fields. cbn [drain].
  rewrite Hbuf. split.
  - intros Hck. destruct (Hok Hck) as (bufs' & Hstep & Hl & Hall).
    rewrite Hstep. fields. eexists. split.
    { rewrite (handlerCalls_callbacks s s3) by exact Hcb.
      cbn [app]. rewrite app_nil_r. reflexivity. }
    destruct Hwf3 as [W1 [W2 W3] W4 W5].
    split; [constructor; fields; auto; discriminate|].
    split; [reflexivity|]. split; [exact Hcb | reflexivity].
  - intros Hck. rewrite (Hbad Hck). fields. eexists.
    split; [reflexivity|].
    destruct Hwf3 as [W1 [W2 W3] W4 W5].
    split; [constructor; fields; auto; discriminate|].
    split; [reflexivity|]. auto.
Qed.

(** A length that is out of bounds: the frame ends with the low length
    byte, and nothing but the length and the time of the last byte has
    changed. *)
Lemma drain_bad_length (s : SerialComms) (t0 t1 t2 : Z) (hi lo : byte) :
  _state s = WAIT_START ->
  declared hi lo = 0 \/ declared hi lo > MAX_MSG_LEN ->
  drain checksum s [(t0, FRAME_START_BYTE); (t1, hi); (t2, lo)]
  = Some (set_bodyLen (set_lastByteTime s t2) (declared hi lo), []).
Proof.
  intros Hst Hbad. rewrite drain_header by assumption.
  replace ((declared hi lo =? 0) || (declared hi lo >? MAX_MSG_LEN))
    with true by (unfold MAX_MSG_LEN in *; lia).
  destruct s as [st buf bl bi lt bc c1 c2 c3 c4 c5 lb]. fields. subst st.
  reflexivity.
Qed.

End DecoderProofs.

(** ** The decoder on arbitrary input *)

Section DecoderInvariant.

Variable checksum : list byte -> byte.

Lemma u16_range (z : Z) : 0 <= u16 z < 65536.
Proof. unfold u16. apply Z.mod_pos_bound. lia. Qed.

(** What one byte can do: the decoder stays well-formed, keeps its
    callbacks and notes the time; events arise only from a checksum byte
    that matches the body in the buffer, and only then is the flag set. *)
Lemma step_spec (s : SerialComms) (t : Z) (b : byte) :
  wf s ->
  exists s' evs,
    step checksum s t b = Some (s', evs)
    /\ wf s' /\ callbacks s' = callbacks s /\ _lastByteTime s' = t
    /\ ((evs = [] /\ _bridgeConnected s' = _bridgeConnected s)
        \/ (_state s = READ_CHECKSUM /\ _bridgeConnected s' = true
            /\ exists msgType payload,
                 take (Z.to_nat (_bodyLen s)) (_buffer s) = msgType :: payload
                 /\ b = checksum (msgType :: payload)
                 /\ evs = ProcessMessage msgType payload
                            :: handlerCalls s msgType payload)).
Proof.
  intros Hwf. destruct (_state s) eqn:Hst.
  - (* WAIT_START *)
    destruct Hwf as [W1 W2 W3 W4].
    unfold step. fields. rewrite Hst.
    destruct (Byte.eqb b FRAME_START_BYTE);
      (eexists _, _; split; [reflexivity|]);
      (split; [constructor; fields; auto; try discriminate;
               rewrite Hst; discriminate|]);
      auto.
  - (* READ_LEN_HI *)
    destruct Hwf as [W1 W2 W3 W4].
    unfold step. fields. rewrite Hst.
    eexists _, _; split; [reflexivity|].
    split; [constructor; fields; auto; discriminate | auto].
  - (* READ_LEN_LO *)
    destruct Hwf as [W1 W2 W3 W4].
    unfold step. fields. rewrite Hst.
    pose proof (u16_range (Z.lor (_bodyLen s) (b2z b))) as Hr.
    destruct ((u16 (Z.lor (_bodyLen s) (b2z b)) =? 0)
              || (u16 (Z.lor (_bodyLen s) (b2z b)) >? MAX_MSG_LEN)) eqn:Ebad;
      (eexists _, _; split; [reflexivity|]);
      (split; [constructor; fields; auto; try discriminate|]); auto.
    intros _. unfold MAX_MSG_LEN in *. lia.
  - (* READ_BODY *)
    destruct (wf_body s Hwf Hst) as [Hbl Hidx]. unfold MAX_MSG_LEN in Hbl.
    destruct Hwf as [W1 W2 W3 W4].
    unfold step. fields. rewrite Hst.
    rewrite store_Some by lia. fields. rewrite u16_small by lia.
    destruct (_bodyIdx s + 1 >=? _bodyLen s) eqn:Edone;
      (eexists _, _; split; [reflexivity|]);
      (split; [constructor; fields; rewrite ?length_insert; auto;
               try discriminate; try rewrite Hst; try discriminate|]); auto.
    intros _. unfold MAX_MSG_LEN. lia.
  - (* READ_CHECKSUM *)
    destruct (step_checksum checksum s t b Hwf Hst)
      as (msgType & payload & Hbuf & Hok & Hbad).
    destruct Hwf as [W1 [W2 W2'] W3 W4].
    destruct (Byte.eqb b (checksum (msgType :: payload))) eqn:Eck.
    + apply byte_eqb_eq in Eck.
      destruct (Hok Eck) as (bufs' & Hstep & Hl & Hall).
      rewrite Hstep. eexists _, _; split; [reflexivity|].
      split; [constructor; fields; auto; discriminate|].
      split; [reflexivity|]. split; [reflexivity|].
      right. split; [reflexivity|]. split; [reflexivity|]. eauto.
    + apply byte_eqb_neq in Eck. rewrite (Hbad Eck).
      eexists _, _; split; [reflexivity|].
      split; [constructor; fields; auto; discriminate | auto].
Qed.

Lemma step_flag (s s' : SerialComms) (t : Z) (b : byte) (evs : list Event) :
  wf s -> step checksum s t b = Some (s', evs) ->
  _bridgeConnected s' = _bridgeConnected s || existsb is_dispatch evs.
Proof.
  intros Hwf Hstep.
  destruct (step_spec s t b Hwf) as (s1 & e1 & H1 & _ & _ & _ & Hev).
  rewrite Hstep in H1. injection H1 as <- <-.
  destruct Hev as [[-> ->] | (_ & -> & mt & pl & _ & _ & ->)].
  - simpl. now rewrite orb_false_r.
  - simpl. now rewrite orb_true_r.
Qed.

(** Any bytes at all: the loop of [poll] ends in a well-formed state. *)
Lemma drain_spec (avail : list (Z * byte)) :
  forall s : SerialComms,
    wf s ->
    exists s' evs,
      drain checksum s avail = Some (s', evs)
      /\ wf s' /\ callbacks s' = callbacks s
      /\ _bridgeConnected s'
         = _bridgeConnected s || existsb is_dispatch evs.
Proof.
  induction avail as [|[t b] rest IH]; intros s Hwf.
  - exists s, []. simpl. rewrite orb_false_r. auto.
  - destruct (step_spec s t b Hwf) as (s1 & e1 & H1 & Hwf1 & Hcb1 & _ & _).
    pose proof (step_flag s s1 t b e1 Hwf H1) as Hf1.
    destruct (IH s1 Hwf1) as (s2 & e2 & H2 & Hwf2 & Hcb2 & Hf2).
    exists s2, (e1 ++ e2). cbn [drain]. rewrite H1. fields. rewrite H2. fields.
    split; [reflexivity|]. split; [assumption|].
    split; [congruence|].
    rewrite existsb_app, Hf2, Hf1, orb_assoc. reflexivity.
Qed.

Lemma poll_drain (s : SerialComms) (now : Z) (avail : list (Z * byte)) :
  poll checksum s now avail = drain checksum (after_timeout s now) avail.
Proof. reflexivity. Qed.

Lemma after_timeout_wf (s : SerialComms) (now : Z) :
  wf s -> wf (after_timeout s now)
          /\ callbacks (after_timeout s now) = callbacks s
          /\ _bridgeConnected (after_timeout s now) = _bridgeConnected s.
Proof.
  intros Hwf. unfold after_timeout.
  destruct (negb (ParseState_eqb (_state s) WAIT_START)
            && (elapsed now (_lastByteTime s) >? FRAME_TIMEOUT_MS)); [|auto].
  destruct Hwf as [W1 W2 W3 W4].
  split; [constructor; fields; auto; discriminate | auto].
Qed.

Lemma poll_spec (s : SerialComms) (now : Z) (avail : list (Z * byte)) :
  wf s ->
  exists s' evs,
    poll checksum s now avail = Some (s', evs)
    /\ wf s' /\ callbacks s' = callbacks s
    /\ _bridgeConnected s' = _bridgeConnected s || existsb is_dispatch evs.
Proof.
  intros Hwf. rewrite poll_drain.
  destruct (after_timeout_wf s now Hwf) as (Hwf0 & Hcb0 & Hf0).
  destruct (drain_spec avail _ Hwf0) as (s' & evs & H & Hwf' & Hcb & Hf).
  exists s', evs. split; [exact H|]. split; [exact Hwf'|].
  split; congruence.
Qed.

Lemma polls_spec (calls : list (Z * list (Z * byte))) :
  forall s : SerialComms,
    wf s ->
    exists s' evs,
      polls checksum s calls = Some (s', evs)
      /\ wf s' /\ callbacks s' = callbacks s
      /\ _bridgeConnected s'
         = _bridgeConnected s || existsb is_dispatch evs.
Proof.
  induction calls as [|[now avail] rest IH]; intros s Hwf.
  - exists s, []. simpl. rewrite orb_false_r. auto.
  - destruct (poll_spec s now avail Hwf) as (s1 & e1 & H1 & Hwf1 & Hcb1 & Hf1).
    destruct (IH s1 Hwf1) as (s2 & e2 & H2 & Hwf2 & Hcb2 & Hf2).
    exists s2, (e1 ++ e2). cbn [polls]. rewrite H1. fields. rewrite H2. fields.
    split; [reflexivity|]. split; [assumption|].
    split; [congruence|].
    rewrite existsb_app, Hf2, Hf1, orb_assoc. reflexivity.
Qed.

(** Every event of a run goes back to a checksum byte that matched the
    body in the buffer. *)
Lemma drain_verified (avail : list (Z * byte)) :
  forall (s s' : SerialComms) (evs : list Event) (e : Event),
    wf s -> drain checksum s avail = Some (s', evs) -> In e evs ->
    exists pre t ck post s1 e1 msgType payload,
      avail = pre ++ (t, ck) :: post
      /\ drain checksum s pre = Some (s1, e1)
      /\ _state s1 = READ_CHECKSUM
      /\ take (Z.to_nat (_bodyLen s1)) (_buffer s1) = msgType :: payload
      /\ ck = checksum (msgType :: payload)
      /\ (e = ProcessMessage msgType payload
          \/ In e (handlerCalls s1 msgType payload)).
Proof.
  induction avail as [|[t b] rest IH]; intros s s' evs e Hwf Hdrain Hin.
  - simpl in Hdrain. injection Hdrain as <- <-. destruct Hin.
  - destruct (step_spec s t b Hwf) as (s1 & e1 & H1 & Hwf1 & _ & _ & Hev).
    cbn [drain] in Hdrain. rewrite H1 in Hdrain. fields.
    destruct (drain checksum s1 rest) as [[s2 e2]|] eqn:H2; [|discriminate].
    fields. injection Hdrain as <- <-.
    apply in_app_or in Hin. destruct Hin as [Hin | Hin].
    + destruct Hev as [[-> _] | (Hst & _ & mt & pl & Hbuf & Hck & ->)];
        [destruct Hin|].
      exists [], t, b, rest, s, [], mt, pl.
      repeat split; try assumption; try reflexivity.
      destruct Hin as [<- | Hin]; [now left | now right].
    + destruct (IH s1 s2 e2 e Hwf1 H2 Hin)
        as (pre & t' & ck & post & s3 & e3 & mt & pl
            & -> & Hpre & Hst & Hbuf & Hck & He).
      exists ((t, b) :: pre), t', ck, post, s3, (e1 ++ e3), mt, pl.
      repeat split; try assumption.
      cbn [drain]. rewrite H1. fields. rewrite Hpre. reflexivity.
Qed.

End DecoderInvariant.

(** ** Frames through [poll] *)

Section Frames.

Variable checksum : list byte -> byte.

Lemma handlerCalls_no_dispatch (s : SerialComms) (msgType : byte)
  (data : list byte) :
  List.filter is_dispatch (handlerCalls s msgType data) = [].
Proof.
  unfold handlerCalls.
  repeat match goal with
  | |- context [if ?c then _ else _] => destruct c
  end; reflexivity.
Qed.

(** A frame with a fitting length and the right checksum, read by one call
    of [poll] that starts in [WAIT_START]. *)
Lemma poll_frame (s : SerialComms) (now : Z) (avail : list (Z * byte))
  (hi lo msgType : byte) (payload : list byte) :
  wf s -> _state s = WAIT_START ->
  Z.of_nat (length payload) <= 511 ->
  declared hi lo = Z.of_nat (length (msgType :: payload)) ->
  map snd avail
  = frame hi lo (msgType :: payload) (checksum (msgType :: payload)) ->
  exists s',
    poll checksum s now avail
    = Some (s', ProcessMessage msgType payload
                  :: handlerCalls s msgType payload)
    /\ wf s' /\ _state s' = WAIT_START
    /\ callbacks s' = callbacks s
    /\ _bridgeConnected s' = true.
Proof.
  intros Hwf Hst Hlen Hdecl Hframe. rewrite poll_idle by assumption.
  destruct (drain_frame checksum s avail hi lo (msgType :: payload)
              (checksum (msgType :: payload)))
    as (mt & pl & Hbody & Hok & _); try assumption.
  { rewrite Hdecl. unfold MAX_MSG_LEN. simpl length. lia. }
  injection Hbody as <- <-. apply Hok. reflexivity.
Qed.

(** The same frame with another checksum byte. *)
Lemma poll_bad_checksum (s : SerialComms) (now : Z) (avail : list (Z * byte))
  (hi lo : byte) (body : list byte) (ck : byte) :
  wf s -> _state s = WAIT_START ->
  1 <= Z.of_nat (length body) <= 512 ->
  declared hi lo = Z.of_nat (length body) ->
  ck <> checksum body ->
  map snd avail = frame hi lo body ck ->
  exists s',
    poll checksum s now avail = Some (s', [])
    /\ wf s' /\ _state s' = WAIT_START
    /\ callbacks s' = callbacks s
    /\ _bridgeConnected s' = _bridgeConnected s.
Proof.
  intros Hwf Hst Hlen Hdecl Hck Hframe. rewrite poll_idle by assumption.
  destruct (drain_frame checksum s avail hi lo body ck)
    as (mt & pl & Hbody & _ & Hbad); try assumption.
  { rewrite Hdecl. unfold MAX_MSG_LEN. lia. }
  destruct (Hbad Hck) as (s' & H & Hwf' & Hst' & Hcb & Hf & _).
  exists s'. auto.
Qed.

(** Input that leaves the decoder in [WAIT_START] without an event, and a
    frame behind it in the same call of [poll]: the frame is read as if it
    came alone. *)
Lemma poll_then_frame (s s1 : SerialComms) (now : Z)
  (junk avail : list (Z * byte)) (hi lo msgType : byte)
  (payload : list byte) :
  poll checksum s now junk = Some (s1, []) ->
  wf s1 -> _state s1 = WAIT_START -> callbacks s1 = callbacks s ->
  Z.of_nat (length payload) <= 511 ->
  declared hi lo = Z.of_nat (length (msgType :: payload)) ->
  map snd avail
  = frame hi lo (msgType :: payload) (checksum (msgType :: payload)) ->
  exists s',
    poll checksum s now (junk ++ avail)
    = Some (s', ProcessMessage msgType payload
                  :: handlerCalls s msgType payload)
    /\ wf s' /\ _state s' = WAIT_START
    /\ callbacks s' = callbacks s
    /\ _bridgeConnected s' = true.
Proof.
  intros Hjunk Hwf1 Hst1 Hcb1 Hlen Hdecl Hframe.
  destruct (poll_frame s1 now avail hi lo msgType payload)
    as (s' & Hpoll & Hwf' & Hst' & Hcb' & Hf'); try assumption.
  rewrite poll_idle in Hpoll by assumption.
  exists s'. rewrite poll_drain, drain_app.
  rewrite poll_drain in Hjunk. rewrite Hjunk. fields. rewrite Hpoll. fields.
  rewrite (handlerCalls_callbacks s s1) by assumption.
  split; [reflexivity|]. split; [assumption|]. split; [assumption|].
  split; [congruence | assumption].
Qed.

End Frames.

Lemma wf_initial : wf initial.
Proof.
  constructor; simpl; try discriminate; try reflexivity.
  split; [reflexivity | repeat constructor].
Qed.

Lemma wf_ready : wf ready.
Proof.
  constructor; simpl; try discriminate; try reflexivity.
  split; [reflexivity | repeat constructor].
Qed.

(** * The claims of the specification *)

Section Claims.

Variable checksum : list byte -> byte.

(** C1. Valid-frame decode correctness: for a body of 1 to 512 bytes, a
    decoder in [WAIT_START] that is fed the start marker, the two
    big-endian length bytes, the body and the checksum of the body enters
    [processMessage] exactly once, with the first body byte as type and the
    other bytes as payload, and is in [WAIT_START] again afterwards. *)
Theorem valid_frame_decoded (s : SerialComms) (now : Z)
  (avail : list (Z * byte)) (hi lo : byte) (body : list byte) :
  wf s -> _state s = WAIT_START ->
  1 <= Z.of_nat (length body) <= 512 ->
  declared hi lo = Z.of_nat (length body) ->
  map snd avail = frame hi lo body (checksum body) ->
  exists s' evs,
    poll checksum s now avail = Some (s', evs)
    /\ evs = ProcessMessage (hd x00 body) (tl body)
               :: handlerCalls s (hd x00 body) (tl body)
    /\ List.filter is_dispatch evs = [ProcessMessage (hd x00 body) (tl body)]
    /\ _state s' = WAIT_START.
Proof.
  intros Hwf Hst Hlen Hdecl Hframe.
  destruct body as [|msgType payload]; [simpl in Hlen; lia|].
  destruct (poll_frame checksum s now avail hi lo msgType payload)
    as (s' & Hpoll & _ & Hst' & _ & _); try assumption.
  { simpl length in Hlen. lia. }
  exists s', (ProcessMessage msgType payload :: handlerCalls s msgType payload).
  cbn [hd tl]. split; [exact Hpoll|]. split; [reflexivity|].
  split; [|exact Hst'].
  cbn [List.filter is_dispatch]. rewrite handlerCalls_no_dispatch.
  reflexivity.
Qed.

(** C2. Checksum gate: whatever bytes [poll] reads, every entry into
    [processMessage] and every handler call goes back to a checksum byte
    that equals the checksum of the body in the buffer. A frame whose
    checksum byte differs causes no event at all and leaves the decoder in
    [WAIT_START], and a frame that follows it is read as if it came alone. *)
Theorem checksum_gate :
  (forall (s s' : SerialComms) (now : Z) (avail : list (Z * byte))
          (evs : list Event) (e : Event),
      wf s -> poll checksum s now avail = Some (s', evs) -> In e evs ->
      exists pre t ck post s1 e1 msgType payload,
        avail = pre ++ (t, ck) :: post
        /\ poll checksum s now pre = Some (s1, e1)
        /\ _state s1 = READ_CHECKSUM
        /\ take (Z.to_nat (_bodyLen s1)) (_buffer s1) = msgType :: payload
        /\ ck = checksum (msgType :: payload)
        /\ (e = ProcessMessage msgType payload
            \/ In e (handlerCalls s msgType payload)))
  /\ (forall (s : SerialComms) (now : Z) (bad good : list (Z * byte))
             (hi lo : byte) (body : list byte) (ck hi' lo' msgType : byte)
             (payload : list byte),
         wf s -> _state s = WAIT_START ->
         1 <= Z.of_nat (length body) <= 512 ->
         declared hi lo = Z.of_nat (length body) ->
         ck <> checksum body ->
         map snd bad = frame hi lo body ck ->
         Z.of_nat (length payload) <= 511 ->
         declared hi' lo' = Z.of_nat (length (msgType :: payload)) ->
         map snd good
         = frame hi' lo' (msgType :: payload)
             (checksum (msgType :: payload)) ->
         (exists s1,
             poll checksum s now bad = Some (s1, [])
             /\ _state s1 = WAIT_START
             /\ _bridgeConnected s1 = _bridgeConnected s)
         /\ (exists s2,
                poll checksum s now (bad ++ good)
                = Some (s2, ProcessMessage msgType payload
                              :: handlerCalls s msgType payload)
                /\ _state s2 = WAIT_START)).
Proof.
  split.
  - intros s s' now avail evs e Hwf Hpoll Hin.
    rewrite poll_drain in Hpoll.
    destruct (after_timeout_wf s now Hwf) as (Hwf0 & Hcb0 & _).
    destruct (drain_verified checksum avail _ s' evs e Hwf0 Hpoll Hin)
      as (pre & t & ck & post & s1 & e1 & mt & pl
          & Havail & Hpre & Hst & Hbuf & Hck & He).
    exists pre, t, ck, post, s1, e1, mt, pl.
    destruct (drain_spec checksum pre _ Hwf0) as (s1' & e1' & H1 & _ & Hcb & _).
    rewrite Hpre in H1. injection H1 as <- <-.
    rewrite (handlerCalls_callbacks s s1) in He by congruence.
    rewrite poll_drain. auto 10.
  - intros s now bad good hi lo body ck hi' lo' msgType payload
      Hwf Hst Hlen Hdecl Hck Hbad Hlen' Hdecl' Hgood.
    destruct (poll_bad_checksum checksum s now bad hi lo body ck)
      as (s1 & Hpoll & Hwf1 & Hst1 & Hcb1 & Hf1); try assumption.
    split; [exists s1; auto|].
    destruct (poll_then_frame checksum s s1 now bad good hi' lo' msgType
                payload) as (s2 & H2 & _ & Hst2 & _); try assumption.
    exists s2. auto.
Qed.

(** C3. Round trip: the bytes [sendFrame] writes for a type and a payload
    of at most 511 bytes, read by a decoder in [WAIT_START], make it enter
    [processMessage] exactly once, with that type and that payload. *)
Theorem round_trip (s : SerialComms) (now : Z) (avail : list (Z * byte))
  (msgType : byte) (payload : list byte) :
  wf s -> _state s = WAIT_START ->
  Z.of_nat (length payload) <= 511 ->
  map snd avail
  = sendFrame checksum msgType payload (Z.of_nat (length payload)) ->
  exists s' evs,
    poll checksum s now avail = Some (s', evs)
    /\ evs = ProcessMessage msgType payload
               :: handlerCalls s msgType payload
    /\ List.filter is_dispatch evs = [ProcessMessage msgType payload]
    /\ _state s' = WAIT_START.
Proof.
  intros Hwf Hst Hlen Hsent.
  unfold sendFrame, buildFrame in Hsent.
  rewrite Nat2Z.id, firstn_all in Hsent.
  destruct (poll_frame checksum s now avail
              (z2b (Z.shiftr (Z.of_nat (length payload) + 1) 8))
              (z2b (Z.of_nat (length payload) + 1)) msgType payload)
    as (s' & Hpoll & _ & Hst' & _ & _); try assumption.
  { rewrite declared_encoded by lia. simpl length. lia. }
  exists s', (ProcessMessage msgType payload :: handlerCalls s msgType payload).
  split; [exact Hpoll|]. split; [reflexivity|]. split; [|exact Hst'].
  cbn [List.filter is_dispatch]. rewrite handlerCalls_no_dispatch.
  reflexivity.
Qed.

(** C4. Length bounds: after a start marker, a declared length of 0 or of
    more than 512 ends the frame with the low length byte: the decoder
    waits for that byte in [READ_LEN_LO] and is in [WAIT_START] after it,
    with the body buffer untouched and no event; a valid frame right behind
    is read as if it came alone. *)
Theorem length_bounds (s : SerialComms) (now t0 t1 t2 : Z)
  (hi lo hi' lo' msgType : byte) (payload : list byte)
  (good : list (Z * byte)) :
  wf s -> _state s = WAIT_START ->
  declared hi lo = 0 \/ declared hi lo > MAX_MSG_LEN ->
  Z.of_nat (length payload) <= 511 ->
  declared hi' lo' = Z.of_nat (length (msgType :: payload)) ->
  map snd good
  = frame hi' lo' (msgType :: payload) (checksum (msgType :: payload)) ->
  (exists s1,
      poll checksum s now [(t0, FRAME_START_BYTE); (t1, hi)] = Some (s1, [])
      /\ _state s1 = READ_LEN_LO
      /\ exists s2,
           step checksum s1 t2 lo = Some (s2, [])
           /\ _state s2 = WAIT_START
           /\ _buffer s2 = _buffer s)
  /\ (exists s',
         poll checksum s now
           ([(t0, FRAME_START_BYTE); (t1, hi); (t2, lo)] ++ good)
         = Some (s', ProcessMessage msgType payload
                       :: handlerCalls s msgType payload)
         /\ _state s' = WAIT_START).
Proof.
  intros Hwf Hst Hbad Hlen Hdecl Hgood.
  assert (Hcond : (declared hi lo =? 0) || (declared hi lo >? MAX_MSG_LEN)
                  = true) by (unfold MAX_MSG_LEN in *; lia).
  split.
  - rewrite poll_idle by assumption.
    destruct s as [st buf bl bi lt bc c1 c2 c3 c4 c5 lb]. fields. subst st.
    exists (mkSerialComms READ_LEN_LO buf (u16 (Z.shiftl (b2z hi) 8)) bi t1
              bc c1 c2 c3 c4 c5 lb).
    split; [reflexivity|]. split; [reflexivity|].
    exists (mkSerialComms WAIT_START buf (declared hi lo) bi t2
              bc c1 c2 c3 c4 c5 lb).
    unfold step. fields. rewrite length_bytes, Hcond.
    split; [reflexivity|]. split; reflexivity.
  - destruct (poll_then_frame checksum s
                (set_bodyLen (set_lastByteTime s t2) (declared hi lo)) now
                [(t0, FRAME_START_BYTE); (t1, hi); (t2, lo)] good hi' lo'
                msgType payload) as (s' & H & _ & Hst' & _); try assumption.
    + rewrite poll_idle by assumption. now apply drain_bad_length.
    + destruct Hwf as [W1 W2 W3 W4]. constructor; fields; auto;
        rewrite Hst; discriminate.
    + reflexivity.
    + exists s'. auto.
Qed.

(** C5. Label sub-decoding: [processMessage] on a SET_LABELS payload hands
    the handler four strings, the records LEN(1) | TEXT(LEN) of the payload
    read left to right, each cut to at most 31 bytes, and empty strings for
    the slots behind the last record read; the scan stops, without an
    error, at a record whose length runs past the payload end or after four
    records. A payload whose third record declares too much gives the
    first two records and two empty strings. A string is what the handler
    reads as a C string: the first 31 bytes of the text when no NUL is
    among them. *)
Theorem set_labels_decoding (s : SerialComms) (payload : list byte) (len : Z) :
  wf s -> 0 <= len <= Z.of_nat (length payload) -> len < 65536 ->
  let data := take (Z.to_nat len) payload in
  let labels := padLabels 4 (decodeRecords 4 data) in
  (exists bufs',
      processMessage s MSG_SET_LABELS payload len
      = Some (dispatched s bufs',
              ProcessMessage MSG_SET_LABELS data
                :: (if _onSetLabels s && (len >? 0)
                    then [SetLabelsCb labels] else [])))
  /\ length labels = 4%nat
  /\ Forall (fun l => (length l <= 31)%nat) labels
  /\ (forall text : list byte,
         Forall (fun b => b <> x00) text -> shown text = take 31 text)
  /\ (forall (texts : list (list byte)) (tail : list byte),
         data = concat (map record texts) ++ tail ->
         Forall (fun t => (length t <= 255)%nat) texts ->
         (length texts <= 4)%nat ->
         length texts = 4%nat \/ overruns tail ->
         labels = map shown texts ++ replicate (4 - length texts) [])
  /\ (forall (t1 t2 : list byte) (l3 : byte) (tl : list byte),
         data = record t1 ++ record t2 ++ l3 :: tl ->
         (length t1 <= 255)%nat -> (length t2 <= 255)%nat ->
         Z.of_nat (length tl) < b2z l3 ->
         labels = [shown t1; shown t2; []; []]).
Proof.
  intros Hwf Hlen H16 data labels.
  assert (Hrecs : forall texts tail,
             data = concat (map record texts) ++ tail ->
             Forall (fun t => (length t <= 255)%nat) texts ->
             (length texts <= 4)%nat ->
             length texts = 4%nat \/ overruns tail ->
             labels = map shown texts ++ replicate (4 - length texts) []).
  { intros texts tail Hdata Hall Hn Hstop. unfold labels. rewrite Hdata.
    rewrite decodeRecords_records by assumption. reflexivity. }
  split; [|split; [|split; [|split; [exact shown_no_nul | split]]]].
  - destruct (processMessage_spec s MSG_SET_LABELS payload len Hwf Hlen H16)
      as (bufs' & Hpm & _). exists bufs'. rewrite Hpm. fold data.
    unfold handlerCalls.
    change (Byte.eqb MSG_SET_LABELS MSG_DISPLAY_TEXT) with false.
    change (Byte.eqb MSG_SET_LABELS MSG_STATUS) with false.
    change (Byte.eqb MSG_SET_LABELS MSG_SET_LEDS) with false.
    change (Byte.eqb MSG_SET_LABELS MSG_CLEAR) with false.
    change (Byte.eqb MSG_SET_LABELS MSG_SET_LABELS) with true. cbv iota.
    replace (negb (Nat.eqb (length data) 0)) with (len >? 0); [reflexivity|].
    unfold data. rewrite length_take.
    destruct (Nat.eqb_spec (Z.to_nat len `min` length payload) 0); simpl; lia.
  - apply padLabels_length, decodeRecords_length.
  - apply padLabels_bound.
  - exact Hrecs.
  - intros t1 t2 l3 tl Hdata Ht1 Ht2 Hover.
    apply (Hrecs [t1; t2] (l3 :: tl)).
    + rewrite Hdata. simpl. rewrite app_nil_r, <- !app_assoc. reflexivity.
    + constructor; [assumption|]. constructor; [assumption|]. constructor.
    + simpl. lia.
    + right. exact Hover.
Qed.


(** C6. Liveness flag: [_bridgeConnected] is false in the initial object
    and [begin] and the registration of callbacks leave it alone; over any
    calls of [poll] it is true afterwards exactly if it was true before or
    [processMessage] was entered, so it is never set back to false; a frame
    with the right checksum sets it, whatever its type byte, as does every
    call of [processMessage]. *)
Theorem liveness_flag :
  _bridgeConnected initial = false
  /\ (forall s : SerialComms,
         _bridgeConnected (begin s) = _bridgeConnected s
         /\ _bridgeConnected (onDisplayText s) = _bridgeConnected s
         /\ _bridgeConnected (onStatusText s) = _bridgeConnected s
         /\ _bridgeConnected (onSetLeds s) = _bridgeConnected s
         /\ _bridgeConnected (onClearDisplay s) = _bridgeConnected s
         /\ _bridgeConnected (onSetButtonLabels s) = _bridgeConnected s)
  /\ (forall (s : SerialComms) (calls : list (Z * list (Z * byte))),
         wf s ->
         exists s' evs,
           polls checksum s calls = Some (s', evs)
           /\ _bridgeConnected s'
              = _bridgeConnected s || existsb is_dispatch evs)
  /\ (forall (s : SerialComms) (now : Z) (avail : list (Z * byte))
             (hi lo msgType : byte) (payload : list byte),
         wf s -> _state s = WAIT_START ->
         Z.of_nat (length payload) <= 511 ->
         declared hi lo = Z.of_nat (length (msgType :: payload)) ->
         map snd avail
         = frame hi lo (msgType :: payload)
             (checksum (msgType :: payload)) ->
         exists s' evs,
           poll checksum s now avail = Some (s', evs)
           /\ _bridgeConnected s' = true)
  /\ (forall (s s' : SerialComms) (msgType : byte) (payload : list byte)
             (len : Z) (evs : list Event),
         processMessage s msgType payload len = Some (s', evs) ->
         _bridgeConnected s' = true).
Proof.
  split; [reflexivity|]. split; [intros s; repeat split|].
  split; [|split; [|exact processMessage_flag]].
  - intros s calls Hwf.
    destruct (polls_spec checksum calls s Hwf) as (s' & evs & H & _ & _ & Hf).
    exists s', evs. auto.
  - intros s now avail hi lo msgType payload Hwf Hst Hlen Hdecl Hframe.
    destruct (poll_frame checksum s now avail hi lo msgType payload)
      as (s' & H & _ & _ & _ & Hf); try assumption.
    eexists s', _. split; [exact H | exact Hf].
Qed.

(** Between two readings of the clock that are less than 2^32 ms apart,
    [elapsed] is the time that has passed. *)
Lemma elapsed_exact (now last : Z) :
  0 <= now - last < 4294967296 -> elapsed (u32 now) (u32 last) = now - last.
Proof.
  intros H. unfold elapsed, u32.
  rewrite <- Zminus_mod. apply Z.mod_small. exact H.
Qed.

(** A decoder that is idle, or whose last byte is more than the timeout
    ago, starts the next [poll] from [WAIT_START]. *)
Lemma after_timeout_idle (s : SerialComms) (now : Z) :
  wf s ->
  _state s = WAIT_START \/ elapsed now (_lastByteTime s) > FRAME_TIMEOUT_MS ->
  after_timeout s now = set_state s WAIT_START
  /\ wf (set_state s WAIT_START).
Proof.
  intros Hwf Hor. split.
  - unfold after_timeout. destruct Hor as [Hst | Hel].
    + rewrite Hst. destruct s; simpl in *. subst. reflexivity.
    + replace (elapsed now (_lastByteTime s) >? FRAME_TIMEOUT_MS)
        with true by lia.
      rewrite andb_true_r.
      destruct (_state s) eqn:E; try reflexivity.
      destruct s; simpl in *. subst. reflexivity.
  - destruct Hwf as [W1 W2 W3 W4]. constructor; fields; auto; discriminate.
Qed.

Lemma poll_resync (s : SerialComms) (now : Z) (avail : list (Z * byte))
  (hi lo msgType : byte) (payload : list byte) :
  wf s ->
  _state s = WAIT_START \/ elapsed now (_lastByteTime s) > FRAME_TIMEOUT_MS ->
  Z.of_nat (length payload) <= 511 ->
  declared hi lo = Z.of_nat (length (msgType :: payload)) ->
  map snd avail
  = frame hi lo (msgType :: payload) (checksum (msgType :: payload)) ->
  exists s',
    poll checksum s now avail
    = Some (s', ProcessMessage msgType payload
                  :: handlerCalls s msgType payload)
    /\ _state s' = WAIT_START.
Proof.
  intros Hwf Hor Hlen Hdecl Hframe.
  destruct (after_timeout_idle s now Hwf Hor) as [Hat Hwf0].
  destruct (poll_frame checksum (set_state s WAIT_START) now avail hi lo
              msgType payload) as (s' & H & _ & Hst' & _); try assumption.
  { reflexivity. }
  rewrite poll_idle in H by reflexivity.
  exists s'. rewrite poll_drain, Hat. split; [exact H | exact Hst'].
Qed.

(** C7. Timeout resync: when the decoder is not in [WAIT_START] and the
    clock shows more than 500 ms since the last byte, [poll] starts from
    [WAIT_START]; every byte read sets the time of the last byte; so a
    valid frame read by that [poll] is dispatched, in particular when the
    decoder had only got a start marker and two length bytes before. The
    time since the last byte is [elapsed], the difference of the two clock
    readings, which is the time that has passed when that is less than
    2^32 ms. *)
Theorem timeout_resync :
  (forall now last : Z,
      0 <= now - last < 4294967296 ->
      elapsed (u32 now) (u32 last) = now - last)
  /\ (forall (s : SerialComms) (now : Z) (avail : list (Z * byte)),
      _state s <> WAIT_START ->
      elapsed now (_lastByteTime s) > FRAME_TIMEOUT_MS ->
      after_timeout s now = set_state s WAIT_START
      /\ poll checksum s now avail
         = drain checksum (set_state s WAIT_START) avail)
  /\ (forall (s : SerialComms) (t : Z) (b : byte),
         wf s ->
         exists s' evs,
           step checksum s t b = Some (s', evs) /\ _lastByteTime s' = t)
  /\ (forall (s : SerialComms) (now : Z) (avail : list (Z * byte))
             (hi lo msgType : byte) (payload : list byte),
         wf s -> _state s <> WAIT_START ->
         elapsed now (_lastByteTime s) > FRAME_TIMEOUT_MS ->
         Z.of_nat (length payload) <= 511 ->
         declared hi lo = Z.of_nat (length (msgType :: payload)) ->
         map snd avail
         = frame hi lo (msgType :: payload)
             (checksum (msgType :: payload)) ->
         exists s',
           poll checksum s now avail
           = Some (s', ProcessMessage msgType payload
                         :: handlerCalls s msgType payload)
           /\ _state s' = WAIT_START)
  /\ (forall (s : SerialComms) (now0 t0 t1 t2 now1 : Z) (hi0 lo0 : byte)
             (avail : list (Z * byte)) (hi lo msgType : byte)
             (payload : list byte),
         wf s -> _state s = WAIT_START ->
         elapsed now1 t2 > FRAME_TIMEOUT_MS ->
         Z.of_nat (length payload) <= 511 ->
         declared hi lo = Z.of_nat (length (msgType :: payload)) ->
         map snd avail
         = frame hi lo (msgType :: payload)
             (checksum (msgType :: payload)) ->
         exists s',
           polls checksum s
             [(now0, [(t0, FRAME_START_BYTE); (t1, hi0); (t2, lo0)]);
              (now1, avail)]
           = Some (s', ProcessMessage msgType payload
                         :: handlerCalls s msgType payload)
           /\ _state s' = WAIT_START).
Proof.
  split; [exact elapsed_exact|]. split; [|split; [|split]].
  - intros s now avail Hst Hel.
    assert (Hat : after_timeout s now = set_state s WAIT_START).
    { unfold after_timeout.
      replace (elapsed now (_lastByteTime s) >? FRAME_TIMEOUT_MS)
        with true by lia.
      destruct (_state s); [contradiction | reflexivity..]. }
    split; [exact Hat|]. rewrite poll_drain, Hat. reflexivity.
  - intros s t b Hwf.
    destruct (step_spec checksum s t b Hwf) as (s' & evs & H & _ & _ & Ht & _).
    exists s', evs. auto.
  - intros s now avail hi lo msgType payload Hwf Hst Hel Hlen Hdecl Hframe.
    apply (poll_resync s now avail hi lo); auto.
  - intros s now0 t0 t1 t2 now1 hi0 lo0 avail hi lo msgType payload
      Hwf Hst Hel Hlen Hdecl Hframe.
    cbn [polls]. rewrite poll_idle, drain_header by assumption. fields.
    set (s1 := if (declared hi0 lo0 =? 0) || (declared hi0 lo0 >? MAX_MSG_LEN)
               then _ else _).
    assert (H1 : wf s1 /\ _lastByteTime s1 = t2 /\ callbacks s1 = callbacks s).
    { pose proof (declared_range hi0 lo0) as Hr.
      destruct Hwf as [W1 W2 W3 W4]. subst s1.
      destruct ((declared hi0 lo0 =? 0) || (declared hi0 lo0 >? MAX_MSG_LEN))
        eqn:E; (split; [constructor; fields; auto; try discriminate|auto]).
      intros _. unfold MAX_MSG_LEN in *. lia. }
    destruct H1 as (Hwf1 & Ht1 & Hcb1).
    destruct (poll_resync s1 now1 avail hi lo msgType payload)
      as (s' & H & Hst'); try assumption.
    { right. rewrite Ht1. exact Hel. }
    rewrite H. fields.
    rewrite (handlerCalls_callbacks s s1) by assumption.
    exists s'. cbn [app]. rewrite app_nil_r. auto.
Qed.

Lemma handlerCalls_unknown (s : SerialComms) (msgType : byte)
  (data : list byte) :
  ~ In msgType defined_types -> handlerCalls s msgType data = [].
Proof.
  intros Hnot. unfold handlerCalls.
  repeat match goal with
  | |- context [if Byte.eqb msgType ?c then _ else _] =>
      destruct (Byte.eqb msgType c) eqn:?
  end; try reflexivity;
  match goal with
  | H : Byte.eqb msgType _ = true |- _ =>
      apply byte_eqb_eq in H; exfalso; apply Hnot; rewrite H; simpl; tauto
  end.
Qed.

(** C8. Unknown type handling: [processMessage] with a type byte that is
    none of the seven defined ones runs to its end and calls no handler;
    a verified frame with such a type is taken by the decoder, which is in
    [WAIT_START] afterwards, and nothing but the entry into
    [processMessage] happens. *)
Theorem unknown_type_ignored (s : SerialComms) (now : Z)
  (avail : list (Z * byte)) (hi lo msgType : byte) (payload : list byte) :
  wf s -> _state s = WAIT_START ->
  ~ In msgType defined_types ->
  Z.of_nat (length payload) <= 511 ->
  declared hi lo = Z.of_nat (length (msgType :: payload)) ->
  map snd avail
  = frame hi lo (msgType :: payload) (checksum (msgType :: payload)) ->
  (exists s1,
      processMessage s msgType payload (Z.of_nat (length payload))
      = Some (s1, [ProcessMessage msgType payload]))
  /\ (exists s',
         poll checksum s now avail
         = Some (s', [ProcessMessage msgType payload])
         /\ _state s' = WAIT_START).
Proof.
  intros Hwf Hst Hnot Hlen Hdecl Hframe. split.
  - destruct (processMessage_spec s msgType payload
                (Z.of_nat (length payload))) as (bufs' & H & _);
      try assumption; try lia.
    rewrite Nat2Z.id, firstn_all, handlerCalls_unknown in H by assumption.
    eauto.
  - destruct (poll_frame checksum s now avail hi lo msgType payload)
      as (s' & H & _ & Hst' & _); try assumption.
    rewrite handlerCalls_unknown in H by assumption. eauto.
Qed.

(** Outside [READ_BODY] a byte does not touch the body buffer, and if it
    leads into [READ_BODY] the length is within bounds and the index 0. *)
Lemma step_enter_body (s s' : SerialComms) (t : Z) (b : byte)
  (evs : list Event) :
  wf s -> step checksum s t b = Some (s', evs) -> _state s <> READ_BODY ->
  _buffer s' = _buffer s
  /\ (_state s' = READ_BODY ->
      1 <= _bodyLen s' <= MAX_MSG_LEN /\ _bodyIdx s' = 0).
Proof.
  intros Hwf Hstep Hst.
  destruct (_state s) eqn:E; try contradiction.
  - unfold step in Hstep. fields. rewrite E in Hstep.
    destruct (Byte.eqb b FRAME_START_BYTE); injection Hstep as <- <-;
      (split; [reflexivity | fields; try rewrite E; discriminate]).
  - unfold step in Hstep. fields. rewrite E in Hstep.
    injection Hstep as <- <-. split; [reflexivity | discriminate].
  - unfold step in Hstep. fields. rewrite E in Hstep.
    pose proof (u16_range (Z.lor (_bodyLen s) (b2z b))) as Hr.
    destruct ((u16 (Z.lor (_bodyLen s) (b2z b)) =? 0)
              || (u16 (Z.lor (_bodyLen s) (b2z b)) >? MAX_MSG_LEN)) eqn:Ebad;
      injection Hstep as <- <-; (split; [reflexivity|]);
      [discriminate|].
    intros _. fields. unfold MAX_MSG_LEN in *. lia.
  - destruct (step_checksum checksum s t b Hwf E)
      as (mt & pl & _ & Hok & Hbad).
    destruct (Byte.eqb b (checksum (mt :: pl))) eqn:Eck.
    + apply byte_eqb_eq in Eck. destruct (Hok Eck) as (bufs' & H & _).
      rewrite H in Hstep. injection Hstep as <- <-.
      split; [reflexivity | discriminate].
    + apply byte_eqb_neq in Eck. rewrite (Hbad Eck) in Hstep.
      injection Hstep as <- <-. split; [reflexivity | discriminate].
Qed.

(** C9. Body-buffer write safety: the initial object is well-formed, and
    from a well-formed state any calls of [poll], on any bytes, run without
    an access outside an array and end well-formed; [READ_BODY] is entered
    only with a length from 1 to 512 and index 0; in [READ_BODY] the byte
    is written at [_bodyIdx], which is below [_bodyLen] and so below the
    512 bytes of the buffer; in the other states the buffer is not
    written. *)
Theorem buffer_write_safety :
  wf initial
  /\ (forall (s : SerialComms) (calls : list (Z * list (Z * byte))),
         wf s ->
         exists s' evs, polls checksum s calls = Some (s', evs) /\ wf s')
  /\ (forall (s s' : SerialComms) (t : Z) (b : byte) (evs : list Event),
         wf s -> step checksum s t b = Some (s', evs) ->
         _state s <> READ_BODY ->
         _buffer s' = _buffer s
         /\ (_state s' = READ_BODY ->
             1 <= _bodyLen s' <= MAX_MSG_LEN /\ _bodyIdx s' = 0))
  /\ (forall (s : SerialComms) (t : Z) (b : byte),
         wf s -> _state s = READ_BODY ->
         0 <= _bodyIdx s < _bodyLen s
         /\ _bodyLen s <= MAX_MSG_LEN
         /\ Z.of_nat (length (_buffer s)) = MAX_MSG_LEN
         /\ exists s',
              step checksum s t b = Some (s', [])
              /\ store (_buffer s) (_bodyIdx s) b = Some (_buffer s')).
Proof.
  split; [exact wf_initial|]. split; [|split].
  - intros s calls Hwf.
    destruct (polls_spec checksum calls s Hwf) as (s' & evs & H & Hwf' & _).
    exists s', evs. auto.
  - intros s s' t b evs. apply step_enter_body.
  - intros s t b Hwf Hst.
    destruct (wf_body s Hwf Hst) as [Hbl Hidx].
    pose proof (wf_buffer s Hwf) as Hbuf. unfold MAX_MSG_LEN in *.
    split; [lia|]. split; [lia|]. split; [lia|].
    unfold step. fields. rewrite Hst.
    rewrite store_Some by lia. fields.
    destruct (u16 (_bodyIdx s + 1) >=? _bodyLen s);
      (eexists; split; reflexivity).
Qed.

Lemma handlerCalls_empty (s : SerialComms) (msgType : byte) :
  In msgType [MSG_DISPLAY_TEXT; MSG_STATUS; MSG_SET_LEDS; MSG_SET_LABELS] ->
  handlerCalls s msgType [] = [].
Proof.
  intros [<- | [<- | [<- | [<- | []]]]]; unfold handlerCalls; simpl;
    rewrite andb_false_r; reflexivity.
Qed.

(** C10. Empty-payload suppression: a verified frame of one body byte with
    type DISPLAY_TEXT, STATUS, SET_LEDS or SET_LABELS calls no handler; a
    CLEAR frame calls the registered clear handler whatever its payload; in
    every case the connectivity flag is true afterwards. *)
Theorem empty_payload_suppression (s : SerialComms) (now : Z)
  (avail : list (Z * byte)) (hi lo msgType : byte) (payload : list byte) :
  wf s -> _state s = WAIT_START ->
  Z.of_nat (length payload) <= 511 ->
  declared hi lo = Z.of_nat (length (msgType :: payload)) ->
  map snd avail
  = frame hi lo (msgType :: payload) (checksum (msgType :: payload)) ->
  exists s' evs,
    poll checksum s now avail = Some (s', evs)
    /\ _bridgeConnected s' = true
    /\ (payload = [] ->
        In msgType
          [MSG_DISPLAY_TEXT; MSG_STATUS; MSG_SET_LEDS; MSG_SET_LABELS] ->
        evs = [ProcessMessage msgType []])
    /\ (msgType = MSG_CLEAR -> _onClearDisplay s = true ->
        evs = [ProcessMessage MSG_CLEAR payload; ClearDisplayCb]).
Proof.
  intros Hwf Hst Hlen Hdecl Hframe.
  destruct (poll_frame checksum s now avail hi lo msgType payload)
    as (s' & H & _ & _ & _ & Hf); try assumption.
  eexists s', _. split; [exact H|]. split; [exact Hf|]. split.
  - intros -> Hin. rewrite handlerCalls_empty by assumption. reflexivity.
  - intros -> Hcb. unfold handlerCalls. simpl. rewrite Hcb. reflexivity.
Qed.

End Claims.

(** * The claims on concrete frames *)


Lemma wf_in_body : wf in_body.
Proof.
  constructor; simpl; try discriminate; try reflexivity.
  - split; [reflexivity | repeat constructor].
  - intros _. unfold MAX_MSG_LEN. lia.
Qed.

Lemma valid_frame_decoded_witness :
  exists s' evs,
    poll sum8 ready 0 (stamp 0 button_frame) = Some (s', evs)
    /\ evs = ProcessMessage MSG_BUTTON [x02; x01]
               :: handlerCalls ready MSG_BUTTON [x02; x01]
    /\ List.filter is_dispatch evs = [ProcessMessage MSG_BUTTON [x02; x01]]
    /\ _state s' = WAIT_START.
Proof.
  apply (valid_frame_decoded sum8 ready 0 (stamp 0 button_frame) x00 x03
           button_body).
  - exact wf_ready.
  - reflexivity.
  - simpl. lia.
  - reflexivity.
  - reflexivity.
Defined.

Lemma checksum_gate_witness :
  (exists pre t ck post s1 e1 msgType payload,
      stamp 0 button_frame = pre ++ (t, ck) :: post
      /\ poll sum8 ready 0 pre = Some (s1, e1)
      /\ _state s1 = READ_CHECKSUM
      /\ take (Z.to_nat (_bodyLen s1)) (_buffer s1) = msgType :: payload
      /\ ck = sum8 (msgType :: payload)
      /\ (ProcessMessage MSG_BUTTON [x02; x01]
          = ProcessMessage msgType payload
          \/ In (ProcessMessage MSG_BUTTON [x02; x01])
               (handlerCalls ready msgType payload)))
  /\ (exists s1,
         poll sum8 ready 0 (stamp 0 corrupt_frame) = Some (s1, [])
         /\ _state s1 = WAIT_START
         /\ _bridgeConnected s1 = _bridgeConnected ready)
  /\ (exists s2,
         poll sum8 ready 0 (stamp 0 corrupt_frame ++ stamp 0 clear_frame)
         = Some (s2, ProcessMessage MSG_CLEAR []
                       :: handlerCalls ready MSG_CLEAR [])
         /\ _state s2 = WAIT_START).
Proof.
  split.
  - apply (proj1 (checksum_gate sum8) ready after_button 0
             (stamp 0 button_frame) [ProcessMessage MSG_BUTTON [x02; x01]]
             (ProcessMessage MSG_BUTTON [x02; x01])).
    + exact wf_ready.
    + reflexivity.
    + left. reflexivity.
  - apply (proj2 (checksum_gate sum8) ready 0 (stamp 0 corrupt_frame)
             (stamp 0 clear_frame) x00 x03 button_body xff x00 x01
             MSG_CLEAR []).
    + exact wf_ready.
    + reflexivity.
    + simpl. lia.
    + reflexivity.
    + discriminate.
    + reflexivity.
    + simpl. lia.
    + reflexivity.
    + reflexivity.
Defined.

Lemma round_trip_witness :
  exists s' evs,
    poll sum8 ready 0 (stamp 0 (sendButtonEvent sum8 x02 true))
    = Some (s', evs)
    /\ evs = ProcessMessage MSG_BUTTON [x02; x01]
               :: handlerCalls ready MSG_BUTTON [x02; x01]
    /\ List.filter is_dispatch evs = [ProcessMessage MSG_BUTTON [x02; x01]]
    /\ _state s' = WAIT_START.
Proof.
  apply (round_trip sum8 ready 0 (stamp 0 (sendButtonEvent sum8 x02 true))
           MSG_BUTTON [x02; x01]).
  - exact wf_ready.
  - reflexivity.
  - simpl. lia.
  - reflexivity.
Defined.

Lemma length_bounds_witness :
  (exists s1,
      poll sum8 ready 0 [(0, FRAME_START_BYTE); (0, x02)] = Some (s1, [])
      /\ _state s1 = READ_LEN_LO
      /\ exists s2,
           step sum8 s1 0 x01 = Some (s2, [])
           /\ _state s2 = WAIT_START
           /\ _buffer s2 = _buffer ready)
  /\ (exists s',
         poll sum8 ready 0
           ([(0, FRAME_START_BYTE); (0, x02); (0, x01)] ++ stamp 0 clear_frame)
         = Some (s', ProcessMessage MSG_CLEAR []
                       :: handlerCalls ready MSG_CLEAR [])
         /\ _state s' = WAIT_START).
Proof.
  apply (length_bounds sum8 ready 0 0 0 0 x02 x01 x00 x01 MSG_CLEAR []
           (stamp 0 clear_frame)).
  - exact wf_ready.
  - reflexivity.
  - right. reflexivity.
  - simpl. lia.
  - reflexivity.
  - reflexivity.
Defined.

Lemma set_labels_decoding_witness :
  (exists bufs',
      processMessage ready MSG_SET_LABELS labels_payload 9
      = Some (dispatched ready bufs',
              [ProcessMessage MSG_SET_LABELS labels_payload;
               SetLabelsCb [[x41; x42]; [x43]; []; []]]))
  /\ padLabels 4 (decodeRecords 4 labels_payload)
     = [shown [x41; x42]; shown [x43]; []; []].
Proof.
  pose proof (set_labels_decoding ready labels_payload 9 wf_ready
                ltac:(simpl; lia) ltac:(lia)) as H.
  cbv zeta in H. destruct H as (H1 & _ & _ & _ & _ & H5).
  split.
  - exact H1.
  - apply (H5 [x41; x42] [x43] x05 [x44; x01; x45]).
    + reflexivity.
    + simpl. lia.
    + simpl. lia.
    + reflexivity.
Defined.

Lemma liveness_flag_witness :
  (exists s' evs,
      polls sum8 ready [(0, stamp 0 corrupt_frame); (7, stamp 7 clear_frame)]
      = Some (s', evs)
      /\ _bridgeConnected s'
         = _bridgeConnected ready || existsb is_dispatch evs)
  /\ (exists s' evs,
         poll sum8 ready 0 (stamp 0 unknown_frame) = Some (s', evs)
         /\ _bridgeConnected s' = true)
  /\ _bridgeConnected (dispatched ready (labelBufs ready)) = true.
Proof.
  split; [|split].
  - apply (proj1 (proj2 (proj2 (liveness_flag sum8)))). exact wf_ready.
  - apply (proj1 (proj2 (proj2 (proj2 (liveness_flag sum8)))) ready 0
             (stamp 0 unknown_frame) x00 x02 x09 [x2a]).
    + exact wf_ready.
    + reflexivity.
    + simpl. lia.
    + reflexivity.
    + reflexivity.
  - apply (proj2 (proj2 (proj2 (proj2 (liveness_flag sum8)))) ready
             (dispatched ready (labelBufs ready)) x09 [x2a] 1
             [ProcessMessage x09 [x2a]]).
    reflexivity.
Defined.

Lemma timeout_resync_witness :
  elapsed (u32 4294967396) (u32 4294966796) = 600
  /\ (after_timeout in_body 501 = set_state in_body WAIT_START
   /\ poll sum8 in_body 501 (stamp 501 button_frame)
      = drain sum8 (set_state in_body WAIT_START) (stamp 501 button_frame))
  /\ (exists s' evs,
         step sum8 in_body 17 x02 = Some (s', evs) /\ _lastByteTime s' = 17)
  /\ (exists s',
         poll sum8 in_body 501 (stamp 501 button_frame)
         = Some (s', ProcessMessage MSG_BUTTON [x02; x01]
                       :: handlerCalls in_body MSG_BUTTON [x02; x01])
         /\ _state s' = WAIT_START)
  /\ (exists s',
         polls sum8 ready
           [(0, [(0, FRAME_START_BYTE); (1, x00); (2, x03)]);
            (600, stamp 600 button_frame)]
         = Some (s', ProcessMessage MSG_BUTTON [x02; x01]
                       :: handlerCalls ready MSG_BUTTON [x02; x01])
         /\ _state s' = WAIT_START).
Proof.
  split; [|split; [|split; [|split]]].
  - apply (proj1 (timeout_resync sum8) 4294967396 4294966796). lia.
  - apply (proj1 (proj2 (timeout_resync sum8)) in_body 501
             (stamp 501 button_frame)).
    + discriminate.
    + reflexivity.
  - apply (proj1 (proj2 (proj2 (timeout_resync sum8))) in_body 17 x02).
    exact wf_in_body.
  - apply (proj1 (proj2 (proj2 (proj2 (timeout_resync sum8)))) in_body 501
             (stamp 501 button_frame) x00 x03 MSG_BUTTON [x02; x01]).
    + exact wf_in_body.
    + discriminate.
    + reflexivity.
    + simpl. lia.
    + reflexivity.
    + reflexivity.
  - apply (proj2 (proj2 (proj2 (proj2 (timeout_resync sum8)))) ready 0 0 1 2
             600
             x00 x03 (stamp 600 button_frame) x00 x03 MSG_BUTTON [x02; x01]).
    + exact wf_ready.
    + reflexivity.
    + reflexivity.
    + simpl. lia.
    + reflexivity.
    + reflexivity.
Defined.

Lemma unknown_type_ignored_witness :
  (exists s1,
      processMessage ready x09 [x2a] 1
      = Some (s1, [ProcessMessage x09 [x2a]]))
  /\ (exists s',
         poll sum8 ready 0 (stamp 0 unknown_frame)
         = Some (s', [ProcessMessage x09 [x2a]])
         /\ _state s' = WAIT_START).
Proof.
  apply (unknown_type_ignored sum8 ready 0 (stamp 0 unknown_frame) x00 x02
           x09 [x2a]).
  - exact wf_ready.
  - reflexivity.
  - simpl. intros [H | [H | [H | [H | [H | [H | [H | []]]]]]]]; discriminate H.
  - simpl. lia.
  - reflexivity.
  - reflexivity.
Defined.

Lemma buffer_write_safety_witness :
  (exists s' evs,
      polls sum8 initial [(0, stamp 0 button_frame); (9, stamp 9 corrupt_frame)]
      = Some (s', evs) /\ wf s')
  /\ (_buffer in_body = _buffer (set_state ready READ_LEN_LO)
      /\ (_state in_body = READ_BODY ->
          1 <= _bodyLen in_body <= MAX_MSG_LEN /\ _bodyIdx in_body = 0))
  /\ (0 <= _bodyIdx in_body < _bodyLen in_body
      /\ _bodyLen in_body <= MAX_MSG_LEN
      /\ Z.of_nat (length (_buffer in_body)) = MAX_MSG_LEN
      /\ exists s',
           step sum8 in_body 0 x02 = Some (s', [])
           /\ store (_buffer in_body) (_bodyIdx in_body) x02
              = Some (_buffer s')).
Proof.
  split; [|split].
  - apply (proj1 (proj2 (buffer_write_safety sum8)) initial).
    exact (proj1 (buffer_write_safety sum8)).
  - apply (proj1 (proj2 (proj2 (buffer_write_safety sum8)))
             (set_state ready READ_LEN_LO) in_body 0 x03 []).
    + constructor; simpl; try discriminate; try reflexivity.
      split; [reflexivity | repeat constructor].
    + reflexivity.
    + discriminate.
  - apply (proj2 (proj2 (proj2 (buffer_write_safety sum8))) in_body 0 x02).
    + exact wf_in_body.
    + reflexivity.
Defined.

Lemma empty_payload_suppression_witness :
  (exists s' evs,
      poll sum8 ready 0 (stamp 0 empty_text_frame) = Some (s', evs)
      /\ _bridgeConnected s' = true
      /\ evs = [ProcessMessage MSG_DISPLAY_TEXT []])
  /\ (exists s' evs,
         poll sum8 ready 0 (stamp 0 clear_frame) = Some (s', evs)
         /\ _bridgeConnected s' = true
         /\ evs = [ProcessMessage MSG_CLEAR []; ClearDisplayCb]).
Proof.
  split.
  - destruct (empty_payload_suppression sum8 ready 0 (stamp 0 empty_text_frame)
                x00 x01 MSG_DISPLAY_TEXT [] wf_ready eq_refl
                ltac:(simpl; lia) eq_refl eq_refl)
      as (s' & evs & H1 & H2 & H3 & _).
    exists s', evs. split; [exact H1|]. split; [exact H2|].
    apply H3; [reflexivity | left; reflexivity].
  - destruct (empty_payload_suppression sum8 ready 0 (stamp 0 clear_frame)
                x00 x01 MSG_CLEAR [] wf_ready eq_refl
                ltac:(simpl; lia) eq_refl eq_refl)
      as (s' & evs & H1 & H2 & _ & H4).
    exists s', evs. split; [exact H1|]. split; [exact H2|].
    apply H4; reflexivity.
Defined.

(** * Further properties of the decoder *)

Section DecoderMore.

Variable checksum : list byte -> byte.

Lemma last_time_app (last : Z) (a b : list (Z * byte)) :
  last_time last (a ++ b) = last_time (last_time last a) b.
Proof. unfold last_time. apply fold_left_app. Qed.

(** [processMessage] changes the flag and the scratch buffers only. *)
Lemma processMessage_dispatched (s s' : SerialComms) (msgType : byte)
  (payload : list byte) (len : Z) (evs : list Event) :
  processMessage s msgType payload len = Some (s', evs) ->
  exists bufs', s' = dispatched s bufs'.
Proof.
  unfold processMessage. intros H.
  destruct (region payload 0 len) as [data|]; [|discriminate].
  cbn [mbind option_bind] in H.
  repeat match type of H with
  | context [if ?c then _ else _] => destruct c
  end;
  try (injection H as <- _; exists (labelBufs s); reflexivity).
  destruct (labelLoop 5 payload len _) as [st|]; [|discriminate].
  cbn [mbind option_bind] in H.
  destruct (mapM (deref (bufs st)) (labels st)) as [strs|]; [|discriminate].
  injection H as <- _. exists (bufs st). reflexivity.
Qed.

(** A byte that was read leaves its time in [_lastByteTime]. *)
Lemma step_time (s s' : SerialComms) (t : Z) (b : byte) (evs : list Event) :
  step checksum s t b = Some (s', evs) -> _lastByteTime s' = t.
Proof.
  unfold step. intros H.
  change (_state (set_lastByteTime s t)) with (_state s) in H.
  destruct (_state s).
  - destruct (Byte.eqb b FRAME_START_BYTE); injection H as <- _; reflexivity.
  - injection H as <- _. reflexivity.
  - match type of H with
    | context [if ?c then _ else _] => destruct c
    end; injection H as <- _; reflexivity.
  - destruct (store _ _ _) as [buf|]; [|discriminate].
    cbn [mbind option_bind] in H.
    match type of H with
    | context [if ?c then _ else _] => destruct c
    end; injection H as <- _; reflexivity.
  - destruct (region _ _ _) as [body|]; [|discriminate].
    cbn [mbind option_bind] in H.
    destruct (Byte.eqb b (checksum body)).
    + destruct (load _ _) as [mt|]; [|discriminate].
      cbn [mbind option_bind] in H.
      destruct (processMessage _ _ _ _) as [[s1 e1]|] eqn:Hpm; [|discriminate].
      cbn [mbind option_bind] in H. injection H as <- _.
      apply processMessage_dispatched in Hpm. destruct Hpm as [bufs' ->].
      reflexivity.
    + injection H as <- _. reflexivity.
Qed.

Lemma drain_time (avail : list (Z * byte)) :
  forall (s s' : SerialComms) (evs : list Event),
    drain checksum s avail = Some (s', evs) ->
    _lastByteTime s' = last_time (_lastByteTime s) avail.
Proof.
  induction avail as [|[t b] rest IH]; intros s s' evs H.
  - injection H as <- _. reflexivity.
  - cbn [drain] in H.
    destruct (step checksum s t b) as [[s1 e1]|] eqn:H1; [|discriminate].
    cbn [mbind option_bind] in H.
    destruct (drain checksum s1 rest) as [[s2 e2]|] eqn:H2; [|discriminate].
    cbn [mbind option_bind] in H. injection H as <- _.
    rewrite (IH s1 s2 e2 H2), (step_time s s1 t b e1 H1). reflexivity.
Qed.

(** Within the timeout, or when no frame has begun, [poll] goes on where
    the decoder is. *)
Lemma after_timeout_calm (s : SerialComms) (now : Z) :
  _state s = WAIT_START \/ elapsed now (_lastByteTime s) <= FRAME_TIMEOUT_MS ->
  after_timeout s now = s.
Proof.
  intros [Hst | Hel]; unfold after_timeout.
  - rewrite Hst. reflexivity.
  - replace (elapsed now (_lastByteTime s) >? FRAME_TIMEOUT_MS) with false
      by lia.
    rewrite andb_false_r. reflexivity.
Qed.

(** Calls of [poll] that never meet the timeout read their bytes as one
    call reads them all. *)
Lemma polls_calm (calls : list (Z * list (Z * byte))) :
  forall s : SerialComms,
    calm (_lastByteTime s) calls = true ->
    polls checksum s calls = drain checksum s (bytes_read calls).
Proof.
  induction calls as [|[now avail] rest IH]; intros s Hcalm.
  - reflexivity.
  - cbn [calm] in Hcalm. apply andb_true_iff in Hcalm.
    destruct Hcalm as [Hnow Hrest].
    unfold bytes_read. cbn [polls map snd concat].
    rewrite drain_app, poll_drain, after_timeout_calm by (right; lia).
    destruct (drain checksum s avail) as [[s1 e1]|] eqn:H1; [|reflexivity].
    cbn [mbind option_bind].
    rewrite (IH s1); [reflexivity|].
    rewrite (drain_time avail s s1 e1 H1). exact Hrest.
Qed.

(** From [WAIT_START] bytes other than the start marker are dropped: only
    the time of the last byte changes. *)
Lemma drain_noise (junk : list (Z * byte)) :
  forall s : SerialComms,
    _state s = WAIT_START ->
    Forall (fun tb => snd tb <> FRAME_START_BYTE) junk ->
    drain checksum s junk
    = Some (set_lastByteTime s (last_time (_lastByteTime s) junk), []).
Proof.
  induction junk as [|[t b] rest IH]; intros s Hst Hall.
  - destruct s. reflexivity.
  - inversion Hall as [|? ? Hb Hrest]; subst. simpl in Hb.
    apply byte_eqb_neq in Hb.
    cbn [drain]. unfold step.
    change (_state (set_lastByteTime s t)) with (_state s).
    rewrite Hst, Hb. cbn [mbind option_bind].
    rewrite IH by assumption. reflexivity.
Qed.

End DecoderMore.

Section DecoderStreams.

Variable checksum : list byte -> byte.

(** X1. Noise before a frame: a decoder in [WAIT_START] drops every byte
    that is not the start marker, changing nothing but the time of the last
    byte, and a valid frame behind such bytes is dispatched as if it came
    alone. *)
Theorem noise_before_frame (s : SerialComms) (now : Z)
  (junk avail : list (Z * byte)) (hi lo msgType : byte)
  (payload : list byte) :
  wf s -> _state s = WAIT_START ->
  Forall (fun tb => snd tb <> FRAME_START_BYTE) junk ->
  Z.of_nat (length payload) <= 511 ->
  declared hi lo = Z.of_nat (length (msgType :: payload)) ->
  map snd avail
  = frame hi lo (msgType :: payload) (checksum (msgType :: payload)) ->
  poll checksum s now junk
  = Some (set_lastByteTime s (last_time (_lastByteTime s) junk), [])
  /\ exists s',
       poll checksum s now (junk ++ avail)
       = Some (s', ProcessMessage msgType payload
                     :: handlerCalls s msgType payload)
       /\ _state s' = WAIT_START.
Proof.
  intros Hwf Hst Hjunk Hlen Hdecl Hframe.
  assert (Hnoise : poll checksum s now junk
                   = Some (set_lastByteTime s
                             (last_time (_lastByteTime s) junk), [])).
  { rewrite poll_idle by assumption. now apply drain_noise. }
  split; [exact Hnoise|].
  destruct (poll_then_frame checksum s _ now junk avail hi lo msgType payload
              Hnoise) as (s' & H & _ & Hst' & _); try assumption.
  - destruct Hwf as [W1 W2 W3 W4]. constructor; assumption.
  - reflexivity.
  - exists s'. auto.
Qed.

Lemma polls_calm_idle (s : SerialComms) (now : Z) (first : list (Z * byte))
  (rest : list (Z * list (Z * byte))) :
  _state s = WAIT_START \/ elapsed now (_lastByteTime s) <= FRAME_TIMEOUT_MS ->
  calm (last_time (_lastByteTime s) first) rest = true ->
  polls checksum s ((now, first) :: rest)
  = drain checksum s (first ++ bytes_read rest).
Proof.
  intros Hidle Hcalm. cbn [polls].
  rewrite drain_app, poll_drain, after_timeout_calm by assumption.
  destruct (drain checksum s first) as [[s1 e1]|] eqn:H1; [|reflexivity].
  cbn [mbind option_bind].
  rewrite polls_calm; [reflexivity|].
  rewrite (drain_time checksum first s s1 e1 H1). exact Hcalm.
Qed.

(** X2. Delivery in pieces: when the first call of [poll] finds the decoder
    in [WAIT_START] or within the timeout, and every later call starts no
    more than 500 ms after the byte read last, the calls read their bytes
    as a single call would; so a valid frame that arrives in any number of
    pieces is dispatched once, as if it came in one piece. *)
Theorem delivery_in_pieces (s : SerialComms) (now : Z)
  (first : list (Z * byte)) (rest : list (Z * list (Z * byte)))
  (hi lo msgType : byte) (payload : list byte) :
  wf s -> _state s = WAIT_START ->
  calm (last_time (_lastByteTime s) first) rest = true ->
  Z.of_nat (length payload) <= 511 ->
  declared hi lo = Z.of_nat (length (msgType :: payload)) ->
  map snd (first ++ bytes_read rest)
  = frame hi lo (msgType :: payload) (checksum (msgType :: payload)) ->
  polls checksum s ((now, first) :: rest)
  = poll checksum s now (first ++ bytes_read rest)
  /\ exists s',
       polls checksum s ((now, first) :: rest)
       = Some (s', ProcessMessage msgType payload
                     :: handlerCalls s msgType payload)
       /\ _state s' = WAIT_START.
Proof.
  intros Hwf Hst Hcalm Hlen Hdecl Hframe.
  assert (Heq : polls checksum s ((now, first) :: rest)
                = poll checksum s now (first ++ bytes_read rest)).
  { rewrite polls_calm_idle by auto. rewrite poll_idle by assumption.
    reflexivity. }
  split; [exact Heq|]. rewrite Heq.
  destruct (poll_frame checksum s now (first ++ bytes_read rest) hi lo
              msgType payload) as (s' & H & _ & Hst' & _); try assumption.
  exists s'. auto.
Qed.

(** In [READ_BODY], with more than one byte missing, a byte is stored and
    nothing else happens. *)
Lemma step_body (s : SerialComms) (t : Z) (b : byte) :
  wf s -> _state s = READ_BODY -> _bodyIdx s + 1 < _bodyLen s ->
  step checksum s t b
  = Some (set_bodyIdx
            (set_buffer (set_lastByteTime s t)
               (<[Z.to_nat (_bodyIdx s) := b]> (_buffer s)))
            (_bodyIdx s + 1), []).
Proof.
  intros Hwf Hst Hidx.
  destruct (wf_body s Hwf Hst) as [Hbl Hi]. unfold MAX_MSG_LEN in Hbl.
  pose proof (wf_buffer s Hwf) as Hbuf.
  unfold step. fields. rewrite Hst.
  rewrite store_Some by lia. fields. rewrite u16_small by lia.
  replace (_bodyIdx s + 1 >=? _bodyLen s) with false by lia.
  reflexivity.
Qed.

(** X3. Body bytes are data: while a body is being read, bytes that do not
    complete it are stored behind the ones already there, whatever they
    are (start markers and whole frames included); no event arises and the
    decoder stays in [READ_BODY]. *)
Theorem body_bytes_are_data (avail : list (Z * byte)) :
  forall s : SerialComms,
    wf s -> _state s = READ_BODY ->
    Z.of_nat (length avail) < _bodyLen s - _bodyIdx s ->
    exists s',
      drain checksum s avail = Some (s', [])
      /\ wf s' /\ _state s' = READ_BODY
      /\ _bodyLen s' = _bodyLen s
      /\ _bodyIdx s' = _bodyIdx s + Z.of_nat (length avail)
      /\ take (Z.to_nat (_bodyIdx s')) (_buffer s')
         = take (Z.to_nat (_bodyIdx s)) (_buffer s) ++ map snd avail
      /\ _bridgeConnected s' = _bridgeConnected s.
Proof.
  induction avail as [|[t b] rest IH]; intros s Hwf Hst Hlen.
  - exists s. cbn [drain length map]. rewrite Z.add_0_r, app_nil_r. auto 10.
  - destruct (wf_body s Hwf Hst) as [Hbl Hi]. unfold MAX_MSG_LEN in Hbl.
    pose proof (wf_buffer s Hwf) as Hbuf.
    cbn [length] in Hlen.
    cbn [drain]. rewrite step_body by (assumption || lia).
    cbn [mbind option_bind].
    set (s1 := set_bodyIdx _ _).
    assert (Hwf1 : wf s1).
    { destruct Hwf as [W1 W2 W3 W4]. subst s1.
      constructor; fields; rewrite ?length_insert; auto;
        try (intros _; unfold MAX_MSG_LEN; lia);
        try (rewrite Hst; discriminate). }
    destruct (IH s1 Hwf1) as (s' & H & Hwf' & Hst' & Hbl' & Hidx' & Hbuf' & Hf').
    { subst s1. fields. exact Hst. }
    { subst s1. fields. lia. }
    exists s'. rewrite H. cbn [mbind option_bind app].
    split; [reflexivity|]. split; [exact Hwf'|]. split; [exact Hst'|].
    subst s1. fields.
    split; [exact Hbl'|]. split; [cbn [length]; lia|]. split; [|exact Hf'].
    rewrite Hbuf'.
    replace (Z.to_nat (_bodyIdx s + 1)) with (S (Z.to_nat (_bodyIdx s)))
      by lia.
    erewrite take_S_r by (apply list_lookup_insert_eq; lia).
    rewrite take_insert_ge by lia.
    cbn [map snd]. rewrite <- app_assoc. reflexivity.
Qed.

End DecoderStreams.

Section DecoderBounds.

Variable checksum : list byte -> byte.

Lemma dispatches_app (e1 e2 : list Event) :
  dispatches (e1 ++ e2) = dispatches e1 + dispatches e2.
Proof.
  unfold dispatches. rewrite List.filter_app, length_app. lia.
Qed.

Lemma dispatches_message (s : SerialComms) (msgType : byte)
  (payload : list byte) :
  dispatches (ProcessMessage msgType payload
                :: handlerCalls s msgType payload) = 1.
Proof.
  unfold dispatches. cbn [List.filter is_dispatch].
  rewrite handlerCalls_no_dispatch. reflexivity.
Qed.

(** A byte takes a frame one place on at most, and a message costs the
    five places of the shortest frame. *)
Lemma step_rank (s s' : SerialComms) (t : Z) (b : byte) (evs : list Event) :
  wf s -> step checksum s t b = Some (s', evs) ->
  5 * dispatches evs + rank (_state s') <= 1 + rank (_state s).
Proof.
  intros Hwf Hstep. destruct (_state s) eqn:E.
  - unfold step in Hstep. fields. rewrite E in Hstep.
    destruct (Byte.eqb b FRAME_START_BYTE); injection Hstep as <- <-;
      fields; rewrite ?E; unfold dispatches; simpl; lia.
  - unfold step in Hstep. fields. rewrite E in Hstep.
    injection Hstep as <- <-. unfold dispatches. simpl. lia.
  - unfold step in Hstep. fields. rewrite E in Hstep.
    match type of Hstep with
    | context [if ?c then _ else _] => destruct c
    end; injection Hstep as <- <-; unfold dispatches; simpl; lia.
  - destruct (wf_body s Hwf E) as [Hbl Hi]. unfold MAX_MSG_LEN in Hbl.
    pose proof (wf_buffer s Hwf) as Hbuf.
    unfold step in Hstep. fields. rewrite E in Hstep.
    rewrite store_Some in Hstep by lia. fields.
    match type of Hstep with
    | context [if ?c then _ else _] => destruct c
    end; injection Hstep as <- <-; fields; rewrite ?E; unfold dispatches; simpl; lia.
  - destruct (step_checksum checksum s t b Hwf E)
      as (mt & pl & _ & Hok & Hbad).
    destruct (Byte.eqb b (checksum (mt :: pl))) eqn:Eck.
    + apply byte_eqb_eq in Eck. destruct (Hok Eck) as (bufs' & H & _).
      rewrite H in Hstep. injection Hstep as <- <-.
      rewrite dispatches_message. simpl. lia.
    + apply byte_eqb_neq in Eck. rewrite (Hbad Eck) in Hstep.
      injection Hstep as <- <-. unfold dispatches. simpl. lia.
Qed.

Lemma drain_rank (avail : list (Z * byte)) :
  forall (s s' : SerialComms) (evs : list Event),
    wf s -> drain checksum s avail = Some (s', evs) ->
    5 * dispatches evs + rank (_state s')
    <= Z.of_nat (length avail) + rank (_state s).
Proof.
  induction avail as [|[t b] rest IH]; intros s s' evs Hwf H.
  - injection H as <- <-. unfold dispatches. simpl. lia.
  - cbn [drain] in H.
    destruct (step_spec checksum s t b Hwf) as (s1 & e1 & H1 & Hwf1 & _).
    rewrite H1 in H. cbn [mbind option_bind] in H.
    destruct (drain checksum s1 rest) as [[s2 e2]|] eqn:H2; [|discriminate].
    cbn [mbind option_bind] in H. injection H as <- <-.
    pose proof (step_rank s s1 t b e1 Hwf H1).
    pose proof (IH s1 s2 e2 Hwf1 H2).
    rewrite dispatches_app. cbn [length]. lia.
Qed.

Lemma after_timeout_rank (s : SerialComms) (now : Z) :
  rank (_state (after_timeout s now)) <= rank (_state s).
Proof.
  unfold after_timeout.
  destruct (negb (ParseState_eqb (_state s) WAIT_START) && _).
  - destruct (_state s); simpl; lia.
  - lia.
Qed.

(** X4. Message rate: over any calls of [poll], five times the number of
    messages dispatched, plus the place the decoder is left at within a
    frame, is at most the number of bytes read plus the place it started
    at; from [WAIT_START] no more than one message is dispatched per five
    bytes. *)
Theorem dispatch_rate (calls : list (Z * list (Z * byte))) :
  forall s : SerialComms,
    wf s ->
    exists s' evs,
      polls checksum s calls = Some (s', evs)
      /\ 5 * dispatches evs + rank (_state s')
         <= Z.of_nat (length (bytes_read calls)) + rank (_state s).
Proof.
  induction calls as [|[now avail] rest IH]; intros s Hwf.
  - exists s, []. split; [reflexivity | unfold dispatches; simpl; lia].
  - destruct (poll_spec checksum s now avail Hwf) as (s1 & e1 & H1 & Hwf1 & _).
    destruct (IH s1 Hwf1) as (s2 & e2 & H2 & Hle2).
    exists s2, (e1 ++ e2). cbn [polls]. rewrite H1. cbn [mbind option_bind].
    rewrite H2. cbn [mbind option_bind]. split; [reflexivity|].
    rewrite poll_drain in H1.
    destruct (after_timeout_wf s now Hwf) as (Hwf0 & _).
    pose proof (drain_rank avail _ s1 e1 Hwf0 H1) as Hle1.
    pose proof (after_timeout_rank s now).
    unfold bytes_read in *. cbn [map snd concat].
    rewrite dispatches_app, length_app. lia.
Qed.






End DecoderBounds.

Section DecoderRouting.

Variable checksum : list byte -> byte.

Lemma length_nonempty {A : Type} (l : list A) :
  l <> [] -> negb (Nat.eqb (length l) 0) = true.
Proof. destruct l; [contradiction | reflexivity]. Qed.

(** The calls for a payload that is not empty, type by type. *)
Lemma handlerCalls_routing (s : SerialComms) (msgType : byte)
  (payload : list byte) :
  payload <> [] ->
  (msgType = MSG_DISPLAY_TEXT ->
   handlerCalls s msgType payload
   = if _onDisplayText s then [DisplayTextCb payload] else [])
  /\ (msgType = MSG_STATUS ->
      handlerCalls s msgType payload
      = if _onStatusText s then [StatusTextCb payload] else [])
  /\ (msgType = MSG_SET_LEDS ->
      handlerCalls s msgType payload
      = if _onSetLeds s then [SetLedsCb payload] else [])
  /\ (msgType = MSG_SET_LABELS ->
      handlerCalls s msgType payload
      = if _onSetLabels s
        then [SetLabelsCb (padLabels 4 (decodeRecords 4 payload))]
        else []).
Proof.
  intros Hne. unfold handlerCalls. rewrite (length_nonempty payload Hne).
  rewrite !andb_true_r.
  repeat split; intros ->; reflexivity.
Qed.

(** X6. Routing: a verified frame with a payload that is not empty and one
    of the types DISPLAY_TEXT, STATUS, SET_LEDS or SET_LABELS calls the
    callback registered for that type, once, with the payload as it was
    sent (for SET_LABELS with the four strings read from it), and calls
    nothing when that callback slot is null; no other callback is called. *)
Theorem dispatch_routing (s : SerialComms) (now : Z)
  (avail : list (Z * byte)) (hi lo msgType : byte) (payload : list byte) :
  wf s -> _state s = WAIT_START ->
  payload <> [] ->
  Z.of_nat (length payload) <= 511 ->
  declared hi lo = Z.of_nat (length (msgType :: payload)) ->
  map snd avail
  = frame hi lo (msgType :: payload) (checksum (msgType :: payload)) ->
  exists s' calls,
    poll checksum s now avail
    = Some (s', ProcessMessage msgType payload :: calls)
    /\ (msgType = MSG_DISPLAY_TEXT ->
        calls = if _onDisplayText s then [DisplayTextCb payload] else [])
    /\ (msgType = MSG_STATUS ->
        calls = if _onStatusText s then [StatusTextCb payload] else [])
    /\ (msgType = MSG_SET_LEDS ->
        calls = if _onSetLeds s then [SetLedsCb payload] else [])
    /\ (msgType = MSG_SET_LABELS ->
        calls = if _onSetLabels s
                then [SetLabelsCb (padLabels 4 (decodeRecords 4 payload))]
                else []).
Proof.
  intros Hwf Hst Hne Hlen Hdecl Hframe.
  destruct (poll_frame checksum s now avail hi lo msgType payload)
    as (s' & H & _); try assumption.
  exists s', (handlerCalls s msgType payload). split; [exact H|].
  now apply handlerCalls_routing.
Qed.

(** X7. Device-to-host types: BUTTON and HEARTBEAT are defined types for
    which [processMessage] has no case; a verified frame of either type is
    taken, sets the connectivity flag and calls no callback, whatever is
    registered. *)
Theorem device_to_host_types (s : SerialComms) (now : Z)
  (avail : list (Z * byte)) (hi lo msgType : byte) (payload : list byte) :
  wf s -> _state s = WAIT_START ->
  msgType = MSG_BUTTON \/ msgType = MSG_HEARTBEAT ->
  Z.of_nat (length payload) <= 511 ->
  declared hi lo = Z.of_nat (length (msgType :: payload)) ->
  map snd avail
  = frame hi lo (msgType :: payload) (checksum (msgType :: payload)) ->
  exists s',
    poll checksum s now avail = Some (s', [ProcessMessage msgType payload])
    /\ _state s' = WAIT_START
    /\ _bridgeConnected s' = true.
Proof.
  intros Hwf Hst Htype Hlen Hdecl Hframe.
  destruct (poll_frame checksum s now avail hi lo msgType payload)
    as (s' & H & _ & Hst' & _ & Hf); try assumption.
  exists s'. split; [|auto].
  rewrite H. destruct Htype as [-> | ->]; reflexivity.
Qed.

(** X8. begin: [begin] puts a decoder that is anywhere within a frame back
    to [WAIT_START], keeping the callbacks and the connectivity flag; the
    frame it was reading is given up and a valid frame read next is
    dispatched. *)
Theorem begin_restarts (s : SerialComms) (now : Z)
  (avail : list (Z * byte)) (hi lo msgType : byte) (payload : list byte) :
  wf s ->
  Z.of_nat (length payload) <= 511 ->
  declared hi lo = Z.of_nat (length (msgType :: payload)) ->
  map snd avail
  = frame hi lo (msgType :: payload) (checksum (msgType :: payload)) ->
  wf (begin s)
  /\ callbacks (begin s) = callbacks s
  /\ _bridgeConnected (begin s) = _bridgeConnected s
  /\ exists s',
       poll checksum (begin s) now avail
       = Some (s', ProcessMessage msgType payload
                     :: handlerCalls s msgType payload)
       /\ _state s' = WAIT_START.
Proof.
  intros Hwf Hlen Hdecl Hframe.
  assert (Hwf0 : wf (begin s)).
  { destruct Hwf as [W1 W2 W3 W4].
    constructor; unfold begin; fields; auto; discriminate. }
  split; [exact Hwf0|]. split; [reflexivity|]. split; [reflexivity|].
  destruct (poll_frame checksum (begin s) now avail hi lo msgType payload)
    as (s' & H & _ & Hst' & _); try assumption.
  { reflexivity. }
  exists s'. split; [exact H | exact Hst'].
Qed.

End DecoderRouting.

(** * main.cpp: the callbacks *)

(** A text copied into a local buffer and terminated reads back as the
    text, up to its first NUL. *)
Lemma cstr_copy (buf text : list byte) (c : nat) :
  (c <= length text)%nat -> (c < length buf)%nat ->
  cstr (<[c := x00]> (take c text ++ drop c buf)) = cstr (take c text).
Proof.
  intros Ht Hb.
  assert (Hc : length (take c text) = c) by (rewrite length_take; lia).
  rewrite insert_app_r_alt by lia. rewrite Hc, Nat.sub_diag.
  destruct (drop c buf) as [|d rest] eqn:E.
  { apply (f_equal length) in E. rewrite length_drop in E. simpl in E. lia. }
  simpl. rewrite cstr_terminated. apply cstr_app_nul.
Qed.

Lemma cstr_id (text : list byte) :
  Forall (fun b => b <> x00) text -> cstr text = text.
Proof.
  intros H. rewrite <- cstr_app_nul. now apply cstr_no_nul.
Qed.

Lemma onDisplayText_runs (buf text : list byte) (len : Z) :
  length buf = 512%nat -> 0 <= len <= Z.of_nat (length text) ->
  Main.onDisplayText buf text len
  = Some [SetNotificationText (cstr (take (Z.to_nat (Z.min len 511)) text));
          DisplayUpdate].
Proof.
  intros Hbuf Hlen.
  assert (Hc : (if len <? 512 - 1 then len else 512 - 1) = Z.min len 511).
  { destruct (len <? 512 - 1) eqn:E; lia. }
  unfold Main.onDisplayText. rewrite Hc.
  rewrite memcpy_Some by lia. cbn [mbind option_bind].
  rewrite store_Some
    by (rewrite length_app, length_take, length_drop; lia).
  cbn [mbind option_bind].
  rewrite cstr_copy by lia. reflexivity.
Qed.

Lemma onStatusText_runs (buf text : list byte) (len : Z) :
  length buf = 128%nat -> 0 <= len <= Z.of_nat (length text) ->
  Main.onStatusText buf text len
  = Some [SetStatusText (cstr (take (Z.to_nat (Z.min len 127)) text));
          DisplayUpdate].
Proof.
  intros Hbuf Hlen.
  assert (Hc : (if len <? 128 - 1 then len else 128 - 1) = Z.min len 127).
  { destruct (len <? 128 - 1) eqn:E; lia. }
  unfold Main.onStatusText. rewrite Hc.
  rewrite memcpy_Some by lia. cbn [mbind option_bind].
  rewrite store_Some
    by (rewrite length_app, length_take, length_drop; lia).
  cbn [mbind option_bind].
  rewrite cstr_copy by lia. reflexivity.
Qed.

(** X9. onDisplayText: for a text of [len] bytes the callback copies at
    most 511 of them into its 512-byte buffer, never writing outside it,
    and sets the notification to the copy read as a C string: at most 511
    bytes, and the text itself when that has at most 511 bytes and no NUL;
    then it updates the display. What the buffer held before does not
    matter. *)
Theorem display_text_shown (buf text : list byte) (len : Z) :
  length buf = 512%nat -> 0 <= len <= Z.of_nat (length text) ->
  let shown := cstr (take (Z.to_nat (Z.min len 511)) text) in
  Main.onDisplayText buf text len
  = Some [SetNotificationText shown; DisplayUpdate]
  /\ (length shown <= 511)%nat
  /\ (len <= 511 -> Forall (fun b => b <> x00) (take (Z.to_nat len) text) ->
      shown = take (Z.to_nat len) text).
Proof.
  intros Hbuf Hlen shown.
  split; [|split].
  - now apply onDisplayText_runs.
  - unfold shown.
    pose proof (cstr_length (take (Z.to_nat (Z.min len 511)) text)) as H.
    rewrite length_take in H. lia.
  - intros Hshort Hnul. unfold shown.
    replace (Z.min len 511) with len by lia. now apply cstr_id.
Qed.

(** X10. onStatusText: the status callback has a 128-byte buffer; it
    copies at most 127 bytes of the text, within the buffer, and sets the
    status to the copy read as a C string. A status text of more than 127
    bytes is cut to its first 127 bytes; one of at most 127 bytes without
    NUL is shown whole. *)
Theorem status_text_truncated (buf text : list byte) (len : Z) :
  length buf = 128%nat -> 0 <= len <= Z.of_nat (length text) ->
  let shown := cstr (take (Z.to_nat (Z.min len 127)) text) in
  Main.onStatusText buf text len
  = Some [SetStatusText shown; DisplayUpdate]
  /\ (length shown <= 127)%nat
  /\ (Forall (fun b => b <> x00) (take (Z.to_nat len) text) ->
      shown = take (Z.to_nat (Z.min len 127)) text).
Proof.
  intros Hbuf Hlen shown.
  split; [|split].
  - now apply onStatusText_runs.
  - unfold shown.
    pose proof (cstr_length (take (Z.to_nat (Z.min len 127)) text)) as H.
    rewrite length_take in H. lia.
  - intros Hnul. unfold shown. apply cstr_id.
    replace (take (Z.to_nat (Z.min len 127)) text)
      with (take (Z.to_nat (Z.min len 127)) (take (Z.to_nat len) text)).
    + now apply Forall_take.
    + rewrite take_take. f_equal. lia.
Qed.

(** ** onSetLeds *)

Lemma land_shiftl_low (a b n : Z) :
  0 <= n -> 0 <= b < 2 ^ n -> Z.land (Z.shiftl a n) b = 0.
Proof.
  intros Hn Hb. apply Z.bits_inj'. intros k Hk.
  rewrite Z.land_spec, Z.bits_0.
  destruct (Z.lt_ge_cases k n) as [Hlt | Hge].
  - rewrite Z.shiftl_spec_low by lia. reflexivity.
  - destruct (Z.eq_dec b 0) as [-> | Hnz].
    { rewrite Z.bits_0. apply andb_false_r. }
    rewrite (Z.bits_above_log2 b k); [apply andb_false_r | lia |].
    apply Z.log2_lt_pow2; [lia|].
    apply Z.lt_le_trans with (2 ^ n); [lia|].
    apply Z.pow_le_mono_r; lia.
Qed.

(** [(uint32_t)r << 16 | (uint32_t)g << 8 | b] *)
Lemma color_bytes (r g b : byte) :
  Z.lor (Z.lor (u32 (Z.shiftl (b2z r) 16)) (u32 (Z.shiftl (b2z g) 8))) (b2z b)
  = 65536 * b2z r + 256 * b2z g + b2z b.
Proof.
  pose proof (b2z_range r) as Hr. pose proof (b2z_range g) as Hg.
  pose proof (b2z_range b) as Hb.
  assert (Hsr : Z.shiftl (b2z r) 16 = 65536 * b2z r).
  { rewrite Z.shiftl_mul_pow2 by lia. change (2 ^ 16) with 65536. lia. }
  assert (Hsg : Z.shiftl (b2z g) 8 = 256 * b2z g).
  { rewrite Z.shiftl_mul_pow2 by lia. change (2 ^ 8) with 256. lia. }
  unfold u32. rewrite !Z.mod_small by lia.
  assert (H1 : Z.lor (Z.shiftl (b2z r) 16) (Z.shiftl (b2z g) 8)
               = 65536 * b2z r + 256 * b2z g).
  { pose proof (Z.add_lor_land (Z.shiftl (b2z r) 16) (Z.shiftl (b2z g) 8))
      as H.
    rewrite land_shiftl_low in H by (rewrite ?Hsg; simpl; lia). lia. }
  rewrite H1.
  replace (65536 * b2z r + 256 * b2z g)
    with (Z.shiftl (256 * b2z r + b2z g) 8)
    by (rewrite Z.shiftl_mul_pow2 by lia; change (2 ^ 8) with 256; lia).
  pose proof (Z.add_lor_land (Z.shiftl (256 * b2z r + b2z g) 8) (b2z b)) as H.
  rewrite land_shiftl_low in H by (simpl; lia).
  rewrite Z.shiftl_mul_pow2 in * by lia. change (2 ^ 8) with 256 in *. lia.
Qed.

Lemma quads_short (l : list byte) : (length l < 4)%nat -> quads l = [].
Proof.
  destruct l as [|p [|r [|g [|b rest]]]]; simpl; try reflexivity. lia.
Qed.

(** The pixel updates are as many as the payload has whole records. *)
Lemma quads_count (n : nat) :
  forall l : list byte,
    (length l <= n)%nat ->
    (4 * length (quads l) <= length l < 4 * length (quads l) + 4)%nat.
Proof.
  induction n as [|n IH]; intros l Hl.
  - destruct l; simpl in *; lia.
  - destruct l as [|p [|r [|g [|b rest]]]]; simpl in *; try lia.
    specialize (IH rest ltac:(lia)). lia.
Qed.

Lemma quads_colors (n : nat) :
  forall l : list byte,
    (length l <= n)%nat ->
    Forall (fun c => match c with
                     | SetPixelColor _ color => 0 <= color < 16777216
                     | _ => False
                     end) (quads l).
Proof.
  induction n as [|n IH]; intros l Hl.
  - destruct l; [constructor | simpl in Hl; lia].
  - destruct l as [|p [|r [|g [|b rest]]]]; try constructor.
    + pose proof (b2z_range r). pose proof (b2z_range g).
      pose proof (b2z_range b). lia.
    + apply IH. simpl in Hl. lia.
Qed.

(** The loop of [onSetLeds] from index [i] on: it ends within the turns
    given and makes the updates of the records that are left. *)
Lemma ledLoop_spec (data : list byte) (len : Z) :
  0 <= len <= Z.of_nat (length data) -> len < 65536 ->
  forall (fuel : nat) (i : Z),
    0 <= i <= len -> (Z.to_nat (len - i) < fuel)%nat ->
    Main.ledLoop fuel data len i = Some (quads (remaining data len i)).
Proof.
  intros Hlen H16. induction fuel as [|fuel IH]; intros i Hi Hfuel; [lia|].
  cbn [Main.ledLoop].
  destruct (i + 3 <? len) eqn:E.
  - destruct (rest_cons data len Hlen i) as (p & Hp & Ep); [lia|].
    destruct (rest_cons data len Hlen (i + 1)) as (r & Hr & Er); [lia|].
    destruct (rest_cons data len Hlen (i + 1 + 1)) as (g & Hg & Eg); [lia|].
    destruct (rest_cons data len Hlen (i + 1 + 1 + 1)) as (b & Hb & Eb);
      [lia|].
    replace (i + 1 + 1) with (i + 2) in * by lia.
    replace (i + 2 + 1) with (i + 3) in * by lia.
    replace (i + 3 + 1) with (i + 4) in * by lia.
    rewrite (load_Some data i p), (load_Some data (i + 1) r),
      (load_Some data (i + 2) g), (load_Some data (i + 3) b)
      by (assumption || lia).
    cbn [mbind option_bind].
    rewrite (u16_small (i + 4)) by lia.
    rewrite IH by lia. cbn [mbind option_bind].
    rewrite Ep, Er, Eg, Eb. cbn [quads]. rewrite color_bytes. reflexivity.
  - rewrite quads_short; [reflexivity|].
    pose proof (rest_length data len Hlen i ltac:(lia)). lia.
Qed.

Lemma onSetLeds_runs (data : list byte) (len : Z) :
  0 <= len <= Z.of_nat (length data) -> len < 65536 ->
  Main.onSetLeds data len
  = Some (quads (take (Z.to_nat len) data) ++ [ShowPixels]).
Proof.
  intros Hlen H16. unfold Main.onSetLeds.
  rewrite (ledLoop_spec data len Hlen H16) by lia.
  cbn [mbind option_bind]. unfold remaining. reflexivity.
Qed.

(** X11. onSetLeds: for a payload of [len] bytes the callback sets one
    pixel for every whole record [index, R, G, B], in order, with the
    colour 65536 R + 256 G + B, reads no byte outside the payload, leaves
    out the one to three bytes that may follow the last whole record, and
    then shows the pixels once, also when there was no record. *)
Theorem set_leds_pixels (data : list byte) (len : Z) :
  0 <= len <= Z.of_nat (length data) -> len < 65536 ->
  let pixels := quads (take (Z.to_nat len) data) in
  Main.onSetLeds data len = Some (pixels ++ [ShowPixels])
  /\ 4 * Z.of_nat (length pixels) <= len < 4 * Z.of_nat (length pixels) + 4
  /\ Forall (fun c => match c with
                      | SetPixelColor _ color => 0 <= color < 16777216
                      | _ => False
                      end) pixels.
Proof.
  intros Hlen H16 pixels. split; [|split].
  - now apply onSetLeds_runs.
  - pose proof (quads_count _ (take (Z.to_nat len) data) (le_n _)) as H.
    rewrite length_take in H. fold pixels in H. lia.
  - apply (quads_colors _ _ (le_n _)).
Qed.

(** * From a frame to the display and the pixels *)

Section FrameToCalls.

Variable checksum : list byte -> byte.

Lemma four_labels (ls : list (list byte)) :
  length ls = 4%nat -> exists l0 l1 l2 l3, ls = [l0; l1; l2; l3].
Proof.
  destruct ls as [|l0 [|l1 [|l2 [|l3 [|? ?]]]]]; try discriminate.
  intros _. eauto.
Qed.





End FrameToCalls.

(** * The further properties on concrete input *)

Lemma noise_before_frame_witness :
  poll sum8 ready 0 (stamp 4 [x00; x55; xff])
  = Some (set_lastByteTime ready 4, [])
  /\ exists s',
       poll sum8 ready 0 (stamp 4 [x00; x55; xff] ++ stamp 5 button_frame)
       = Some (s', ProcessMessage MSG_BUTTON [x02; x01]
                     :: handlerCalls ready MSG_BUTTON [x02; x01])
       /\ _state s' = WAIT_START.
Proof.
  apply (noise_before_frame sum8 ready 0 (stamp 4 [x00; x55; xff])
           (stamp 5 button_frame) x00 x03 MSG_BUTTON [x02; x01]).
  - exact wf_ready.
  - reflexivity.
  - repeat (constructor; [discriminate|]). constructor.
  - simpl. lia.
  - reflexivity.
  - reflexivity.
Defined.

Lemma delivery_in_pieces_witness :
  polls sum8 ready ((0, stamp 0 [FRAME_START_BYTE; x00]) :: button_pieces)
  = poll sum8 ready 0
      (stamp 0 [FRAME_START_BYTE; x00] ++ bytes_read button_pieces)
  /\ exists s',
       polls sum8 ready ((0, stamp 0 [FRAME_START_BYTE; x00]) :: button_pieces)
       = Some (s', ProcessMessage MSG_BUTTON [x02; x01]
                     :: handlerCalls ready MSG_BUTTON [x02; x01])
       /\ _state s' = WAIT_START.
Proof.
  apply (delivery_in_pieces sum8 ready 0 (stamp 0 [FRAME_START_BYTE; x00])
           button_pieces x00 x03 MSG_BUTTON [x02; x01]).
  - exact wf_ready.
  - reflexivity.
  - reflexivity.
  - simpl. lia.
  - reflexivity.
  - reflexivity.
Defined.

Lemma body_bytes_are_data_witness :
  exists s',
    drain sum8 in_body (stamp 1 [FRAME_START_BYTE; x00]) = Some (s', [])
    /\ wf s' /\ _state s' = READ_BODY
    /\ _bodyLen s' = 3
    /\ _bodyIdx s' = 2
    /\ take (Z.to_nat (_bodyIdx s')) (_buffer s') = [FRAME_START_BYTE; x00]
    /\ _bridgeConnected s' = false.
Proof.
  apply (body_bytes_are_data sum8 (stamp 1 [FRAME_START_BYTE; x00]) in_body).
  - exact wf_in_body.
  - reflexivity.
  - reflexivity.
Defined.

Lemma dispatch_rate_witness :
  exists s' evs,
    polls sum8 ready [(0, stamp 0 button_frame); (3, stamp 3 clear_frame)]
    = Some (s', evs)
    /\ 5 * dispatches evs + rank (_state s') <= 12 + 0.
Proof.
  apply (dispatch_rate sum8
           [(0, stamp 0 button_frame); (3, stamp 3 clear_frame)] ready).
  exact wf_ready.
Defined.


Lemma dispatch_routing_witness :
  exists s' calls,
    poll sum8 ready 0 (stamp 0 hi_frame)
    = Some (s', ProcessMessage MSG_DISPLAY_TEXT [x48; x69] :: calls)
    /\ calls = [DisplayTextCb [x48; x69]].
Proof.
  destruct (dispatch_routing sum8 ready 0 (stamp 0 hi_frame) x00 x03
              MSG_DISPLAY_TEXT [x48; x69] wf_ready eq_refl
              ltac:(discriminate) ltac:(simpl; lia) eq_refl eq_refl)
    as (s' & calls & H & H1 & _).
  exists s', calls. split; [exact H | exact (H1 eq_refl)].
Defined.

Lemma device_to_host_types_witness :
  exists s',
    poll sum8 ready 0 (stamp 0 button_frame)
    = Some (s', [ProcessMessage MSG_BUTTON [x02; x01]])
    /\ _state s' = WAIT_START
    /\ _bridgeConnected s' = true.
Proof.
  apply (device_to_host_types sum8 ready 0 (stamp 0 button_frame) x00 x03
           MSG_BUTTON [x02; x01]).
  - exact wf_ready.
  - reflexivity.
  - left. reflexivity.
  - simpl. lia.
  - reflexivity.
  - reflexivity.
Defined.

Lemma begin_restarts_witness :
  wf (begin in_body)
  /\ callbacks (begin in_body) = callbacks in_body
  /\ _bridgeConnected (begin in_body) = _bridgeConnected in_body
  /\ exists s',
       poll sum8 (begin in_body) 0 (stamp 0 button_frame)
       = Some (s', ProcessMessage MSG_BUTTON [x02; x01]
                     :: handlerCalls in_body MSG_BUTTON [x02; x01])
       /\ _state s' = WAIT_START.
Proof.
  apply (begin_restarts sum8 in_body 0 (stamp 0 button_frame) x00 x03
           MSG_BUTTON [x02; x01]).
  - exact wf_in_body.
  - simpl. lia.
  - reflexivity.
  - reflexivity.
Defined.

Lemma display_text_shown_witness :
  Main.onDisplayText (replicate 512 xff) [x48; x69] 2
  = Some [SetNotificationText [x48; x69]; DisplayUpdate].
Proof.
  exact (proj1 (display_text_shown (replicate 512 xff) [x48; x69] 2 eq_refl
                  ltac:(simpl; lia))).
Defined.

Lemma status_text_truncated_witness :
  Main.onStatusText (replicate 128 xff) long_status 130
  = Some [SetStatusText (replicate 127 x41); DisplayUpdate].
Proof.
  exact (proj1 (status_text_truncated (replicate 128 xff) long_status 130
                  eq_refl ltac:(simpl; lia))).
Defined.

Lemma set_leds_pixels_witness :
  Main.onSetLeds leds_payload 9
  = Some [SetPixelColor x00 16711680; SetPixelColor x03 17408; ShowPixels].
Proof.
  exact (proj1 (set_leds_pixels leds_payload 9 ltac:(simpl; lia)
                  ltac:(lia))).
Defined.



